(** * binu8_tool: header location and the string-table codec

    A shallow embedding of [binu8_tool.py].  Python integers are [Z], a
    [bytes] object is a [list byte], a [str] is the list of its code points,
    a binary file object is its contents together with a cursor, a [dict]
    is a [gmap], and an exception is the [Raise] branch of [result].  The
    functions keep the names they have in the source; [struct], the file
    methods and the UTF-8 codec are Python's and are modelled as far as the
    tool uses them.  Walking the directories and the CSV file stay outside:
    a run is given the files as pairs of a relative path and the contents. *)

From Stdlib Require Import ZArith List Bool Lia String.
From Stdlib Require Import Init.Byte Strings.Byte.
From stdpp Require Import gmap strings.
Import ListNotations.

Local Open Scope Z_scope.

(** ** Exceptions and the state-and-error monad *)

Inductive exn : Type :=
| IndexError          (* bytes index out of range *)
| struct_error        (* struct.unpack / struct.pack *)
| AttributeError      (* None.encode *)
| UnicodeEncodeError. (* str.encode on a lone surrogate *)

Inductive result (A : Type) : Type :=
| Ok (a : A)
| Raise (e : exn).
Arguments Ok {A} a.
Arguments Raise {A} e.

(** A computation over a store [S] that may raise. *)
Definition M (S A : Type) : Type := S -> result (A * S).

Definition ret {S A} (a : A) : M S A := fun s => Ok (a, s).

Definition raise {S A} (e : exn) : M S A := fun _ => Raise e.

Definition bind {S A B} (m : M S A) (k : A -> M S B) : M S B :=
  fun s => match m s with
           | Ok (a, s') => k a s'
           | Raise e => Raise e
           end.

(** A pure computation that may raise, run inside [M]. *)
Definition lift {S A} (r : result A) : M S A :=
  fun s => match r with
           | Ok a => Ok (a, s)
           | Raise e => Raise e
           end.

Notation "x <- m ;; k" := (bind m (fun x => k))
  (at level 100, m at next level, right associativity).

(** [for i in range(n): body(i)] *)
Fixpoint for_from {S} (k : nat) (i : Z) (body : Z -> M S unit) : M S unit :=
  match k with
  | O => ret tt
  | Datatypes.S k' => _ <- body i ;; for_from k' (i + 1) body
  end.

Definition for_range {S} (n : Z) (body : Z -> M S unit) : M S unit :=
  for_from (Z.to_nat n) 0 body.

(** ** Bytes *)

Definition byte_val (b : byte) : Z := Z.of_N (Byte.to_N b).

Definition byte_of (z : Z) : byte :=
  match Byte.of_N (Z.to_N z) with
  | Some b => b
  | None => x00
  end.

(** [data[i]] for a non-negative index. *)
Definition getitem (data : list byte) (i : nat) : result Z :=
  match data !! i with
  | Some b => Ok (byte_val b)
  | None => Raise IndexError
  end.

(** [data[i] == c] *)
Definition item_eq (data : list byte) (i : nat) (c : Z) : result bool :=
  match getitem data i with
  | Ok v => Ok (v =? c)
  | Raise e => Raise e
  end.

(** [a and b]: [b] is evaluated only when [a] is true. *)
Definition py_and (a b : result bool) : result bool :=
  match a with
  | Ok true => b
  | Ok false => Ok false
  | Raise e => Raise e
  end.

(** ** struct: the ['<L'] format *)

(** [struct.unpack('<L', data)[0]]: exactly four bytes, else [struct.error]. *)
Definition byte2int (data : list byte) : result Z :=
  match data with
  | [b0; b1; b2; b3] =>
      Ok (byte_val b0 + 2 ^ 8 * byte_val b1 + 2 ^ 16 * byte_val b2
          + 2 ^ 24 * byte_val b3)
  | _ => Raise struct_error
  end.

(** The four bytes of an unsigned 32-bit field, least significant first. *)
Definition le32 (n : Z) : list byte :=
  [byte_of (n mod 256); byte_of (n / 2 ^ 8 mod 256);
   byte_of (n / 2 ^ 16 mod 256); byte_of (n / 2 ^ 24 mod 256)].

(** [struct.pack('<L', n)]: [n] must fit an unsigned 32-bit field. *)
Definition pack_L (n : Z) : result (list byte) :=
  if (0 <=? n) && (n <=? 0xFFFFFFFF) then Ok (le32 n)
  else Raise struct_error.

(** ** Binary files *)

(** A file opened ['rb']: its contents and the cursor.  The cursor may lie
    beyond the end (seeking there is allowed; reading there yields nothing). *)
Record rfile : Type := { data : list byte; pos : Z }.

Definition open_rb (buf : list byte) : rfile := {| data := buf; pos := 0 |}.

Definition size (f : rfile) : Z := Z.of_nat (length (data f)).

(** The bytes from the cursor to the end of the file. *)
Definition remaining (f : rfile) : list byte :=
  if size f <=? pos f then [] else drop (Z.to_nat (pos f)) (data f).

(** [src.seek(n)] *)
Definition seek (n : Z) : M rfile unit :=
  fun f => Ok (tt, {| data := data f; pos := n |}).

(** [src.seek(n, 1)] *)
Definition seek_cur (n : Z) : M rfile unit :=
  fun f => Ok (tt, {| data := data f; pos := pos f + n |}).

(** [src.tell()] *)
Definition tell : M rfile Z := fun f => Ok (pos f, f).

(** [src.read(n)], [n >= 0]: at most [n] bytes, fewer at the end of file. *)
Definition read (n : Z) : M rfile (list byte) :=
  fun f =>
    let rest := remaining f in
    let bs := if Z.of_nat (length rest) <=? n then rest
              else take (Z.to_nat n) rest in
    Ok (bs, {| data := data f; pos := pos f + Z.of_nat (length bs) |}).

(** [src.read()] *)
Definition read_all : M rfile (list byte) :=
  fun f =>
    let rest := remaining f in
    Ok (rest, {| data := data f; pos := pos f + Z.of_nat (length rest) |}).

(** A file opened ['wb'] is the bytes written so far. *)
Definition wfile : Type := list byte.

(** [dst.write(bs)] *)
Definition write (bs : list byte) : M wfile unit :=
  fun out => Ok (tt, out ++ bs).

(** ** parse_header *)

Definition parse_header : M rfile Z :=
  _ <- seek 0 ;;
  version <- read 9 ;;
  is_ver <- lift (py_and (item_eq version 0 0x56)
                 (py_and (item_eq version 1 0x45) (item_eq version 2 0x52))) ;;
  _ <- (if is_ver : bool then
          _ <- seek 9 ;;
          cnt <- read 4 ;;
          unk_count <- lift (byte2int cnt) ;;
          seek_cur (unk_count * 4)
        else
          is_len_ver <- lift (py_and (item_eq version 0 9)
                             (py_and (item_eq version 4 0x56)
                             (py_and (item_eq version 5 0x45)
                                     (item_eq version 6 0x52)))) ;;
          if is_len_ver : bool then
            _ <- seek 13 ;;
            cnt <- read 4 ;;
            unk_count <- lift (byte2int cnt) ;;
            seek_cur (unk_count * 4)
          else seek 0) ;;
  cnt <- read 4 ;;
  init_code_count <- lift (byte2int cnt) ;;
  _ <- seek_cur (init_code_count * 8) ;;
  cnt <- read 4 ;;
  code_count <- lift (byte2int cnt) ;;
  _ <- seek_cur (code_count * 8) ;;
  tell.

(** The offset [parse_header] returns for a file holding [buf]. *)
Definition locate (buf : list byte) : result Z :=
  match parse_header (open_rb buf) with
  | Ok (off, _) => Ok off
  | Raise e => Raise e
  end.

(** ** UTF-8 *)

(** A [str]: the sequence of its code points. *)
Definition text : Type := list Z.

(** The code points [str.encode('utf-8')] accepts: Unicode scalar values. *)
Definition is_scalar (ch : Z) : bool :=
  (0 <=? ch) && (ch <=? 0x10FFFF) && negb ((0xD800 <=? ch) && (ch <=? 0xDFFF)).

(** One code point of [text.encode('utf-8')]; a surrogate raises. *)
Definition encode_cp (ch : Z) : result (list byte) :=
  if ch <? 0x80 then Ok [byte_of ch]
  else if ch <? 0x800 then
    Ok [byte_of (Z.lor 0xC0 (Z.shiftr ch 6));
        byte_of (Z.lor 0x80 (Z.land ch 0x3F))]
  else if (0xD800 <=? ch) && (ch <=? 0xDFFF) then Raise UnicodeEncodeError
  else if ch <? 0x10000 then
    Ok [byte_of (Z.lor 0xE0 (Z.shiftr ch 12));
        byte_of (Z.lor 0x80 (Z.land (Z.shiftr ch 6) 0x3F));
        byte_of (Z.lor 0x80 (Z.land ch 0x3F))]
  else
    Ok [byte_of (Z.lor 0xF0 (Z.shiftr ch 18));
        byte_of (Z.lor 0x80 (Z.land (Z.shiftr ch 12) 0x3F));
        byte_of (Z.lor 0x80 (Z.land (Z.shiftr ch 6) 0x3F));
        byte_of (Z.lor 0x80 (Z.land ch 0x3F))].

(** [text.encode('utf-8')] *)
Fixpoint utf8_encode (t : text) : result (list byte) :=
  match t with
  | [] => Ok []
  | ch :: t' =>
      match encode_cp ch with
      | Raise e => Raise e
      | Ok bs =>
          match utf8_encode t' with
          | Ok r => Ok (bs ++ r)
          | Raise e => Raise e
          end
      end
  end.

Definition is_continuation (b : Z) : bool := (0x80 <=? b) && (b <? 0xC0).

(** U+FFFD, what the ['replace'] handler puts for an undecodable run. *)
Definition REPLACEMENT : Z := 0xFFFD.

(** [content.decode('utf-8', errors='replace')].  An invalid start byte, or a
    lead byte whose first continuation is wrong, is replaced alone; a wrong
    second (third) continuation replaces the two (three) bytes before it; a
    sequence cut off by the end of the data is replaced as a whole. *)
Fixpoint utf8_decode (s : list byte) : text :=
  match s with
  | [] => []
  | c0 :: s1 =>
    let ch := byte_val c0 in
    if ch <? 0x80 then ch :: utf8_decode s1
    else if ch <? 0xC2 then REPLACEMENT :: utf8_decode s1
    else if ch <? 0xE0 then
      match s1 with
      | [] => [REPLACEMENT]
      | c1 :: s2 =>
        let ch2 := byte_val c1 in
        if negb (is_continuation ch2) then REPLACEMENT :: utf8_decode s1
        else (ch * 2 ^ 6 + ch2 - (0xC0 * 2 ^ 6 + 0x80)) :: utf8_decode s2
      end
    else if ch <? 0xF0 then
      match s1 with
      | [] => [REPLACEMENT]
      | c1 :: s2 =>
        let ch2 := byte_val c1 in
        if negb (is_continuation ch2)
           || (if ch2 <? 0xA0 then ch =? 0xE0 else ch =? 0xED)
        then REPLACEMENT :: utf8_decode s1
        else
          match s2 with
          | [] => [REPLACEMENT]
          | c2 :: s3 =>
            let ch3 := byte_val c2 in
            if negb (is_continuation ch3) then REPLACEMENT :: utf8_decode s2
            else (ch * 2 ^ 12 + ch2 * 2 ^ 6 + ch3
                  - (0xE0 * 2 ^ 12 + 0x80 * 2 ^ 6 + 0x80)) :: utf8_decode s3
          end
      end
    else if ch <? 0xF5 then
      match s1 with
      | [] => [REPLACEMENT]
      | c1 :: s2 =>
        let ch2 := byte_val c1 in
        if negb (is_continuation ch2)
           || (if ch2 <? 0x90 then ch =? 0xF0 else ch =? 0xF4)
        then REPLACEMENT :: utf8_decode s1
        else
          match s2 with
          | [] => [REPLACEMENT]
          | c2 :: s3 =>
            let ch3 := byte_val c2 in
            if negb (is_continuation ch3) then REPLACEMENT :: utf8_decode s2
            else
              match s3 with
              | [] => [REPLACEMENT]
              | c3 :: s4 =>
                let ch4 := byte_val c3 in
                if negb (is_continuation ch4)
                then REPLACEMENT :: utf8_decode s3
                else (ch * 2 ^ 18 + ch2 * 2 ^ 12 + ch3 * 2 ^ 6 + ch4
                      - (0xF0 * 2 ^ 18 + 0x80 * 2 ^ 12 + 0x80 * 2 ^ 6 + 0x80))
                     :: utf8_decode s4
              end
          end
      end
    else REPLACEMENT :: utf8_decode s1
  end.

(** ** The string-table codec *)

(** [content[-1] == 0] on a non-empty [content]. *)
Definition ends_with_nul (content : list byte) : bool :=
  match last content with
  | Some b => byte_val b =? 0
  | None => false
  end.

(** The value is [None] (Python's) or a [str]. *)
Definition read_string_entry : M rfile (option text) :=
  len_bytes <- read 4 ;;
  match len_bytes with
  | [] => ret None
  | _ =>
      length <- lift (byte2int len_bytes) ;;
      if 0 <? length then
        content <- read length ;;
        if ends_with_nul content
        then ret (Some (utf8_decode (removelast content)))
        else ret (Some (utf8_decode content))
      else ret (Some [])
  end.

(** [text] is whatever the caller passes: [None] has no [encode]. *)
Definition write_string_entry (text : option text) : M wfile unit :=
  match text with
  | None => raise AttributeError
  | Some t =>
      encoded_str <- lift (utf8_encode t) ;;
      hdr <- lift (pack_L (Z.of_nat (length encoded_str) + 1)) ;;
      _ <- write hdr ;;
      _ <- write encoded_str ;;
      write [x00]
  end.

(** ** dump_script and import_script, one file at a time *)

Definition on_src {S A} (m : M rfile A) : M (rfile * S) A :=
  fun s => match m (fst s) with
           | Ok (a, f) => Ok (a, (f, snd s))
           | Raise e => Raise e
           end.

Definition on_snd {S T A} (m : M T A) : M (S * T) A :=
  fun s => match m (snd s) with
           | Ok (a, t) => Ok (a, (fst s, t))
           | Raise e => Raise e
           end.

(** [text.replace(c, by)] for a one-character pattern. *)
Definition replace_char (c : Z) (by_ : text) (t : text) : text :=
  flat_map (fun x => if x =? c then by_ else [x]) t.

(** [text.replace('\n', '\\n').replace('\r', '\\r')] *)
Definition sanitize (t : text) : text :=
  replace_char 13 [92; 114] (replace_char 10 [92; 110] t).

Record row : Type :=
  { file : string; id : Z; original : text; translation : text }.

(** [rows.append(r)] *)
Definition append_row (r : row) : M (list row) unit :=
  fun rows => Ok (tt, rows ++ [r]).

(** The body of [dump_script]'s loop over the files, for the file [src]. *)
Definition dump_file (rel_path : string) : M (rfile * list row) unit :=
  str_offset <- on_src parse_header ;;
  _ <- on_src (seek str_offset) ;;
  cnt <- on_src (read 4) ;;
  str_count <- lift (byte2int cnt) ;;
  _ <- on_src (seek_cur 5) ;;
  for_range (str_count - 1) (fun i =>
    text <- on_src read_string_entry ;;
    match text with
    | Some t =>
        on_snd (append_row {| file := rel_path; id := i;
                              original := sanitize t; translation := [] |})
    | None => ret tt
    end).

(** [if trans_text:] is false for [None] and for the empty string. *)
Definition truthy (v : option text) : bool :=
  match v with
  | Some (_ :: _) => true
  | _ => false
  end.

(** The body of [import_script]'s loop over the files: [src] is the original
    file, the other component the file being written. *)
Definition import_file (current_file_map : gmap Z text)
  : M (rfile * wfile) unit :=
  str_offset <- on_src parse_header ;;
  _ <- on_src (seek 0) ;;
  let header_size := str_offset + 9 in
  hdr <- on_src (read header_size) ;;
  _ <- on_snd (write hdr) ;;
  _ <- on_src (seek str_offset) ;;
  cnt <- on_src (read 4) ;;
  str_count <- lift (byte2int cnt) ;;
  _ <- on_src (seek_cur 5) ;;
  _ <- for_range (str_count - 1) (fun i =>
         original_text <- on_src read_string_entry ;;
         let trans_text := current_file_map !! i in
         let text_to_write :=
           if truthy trans_text then trans_text else original_text in
         on_snd (write_string_entry text_to_write)) ;;
  rest <- on_src read_all ;;
  on_snd (write rest).

(** The rows [dump_script] collects from a file holding [buf]. *)
Definition dump (rel_path : string) (buf : list byte) : result (list row) :=
  match dump_file rel_path (open_rb buf, []) with
  | Ok (_, (_, rows)) => Ok rows
  | Raise e => Raise e
  end.

(** The file [import_script] writes for a file holding [buf]. *)
Definition repack (current_file_map : gmap Z text) (buf : list byte)
  : result (list byte) :=
  match import_file current_file_map (open_rb buf, []) with
  | Ok (_, (_, out)) => Ok out
  | Raise e => Raise e
  end.

(** [translation_map.get(rel_path, {})] *)
Definition file_map (translation_map : gmap string (gmap Z text))
  (rel_path : string) : gmap Z text :=
  default ∅ (translation_map !! rel_path).

(** [dump_script] over the files [get_files] found: the rows of all of them,
    in that order.  An exception in one file ends the run. *)
Fixpoint dump_script (files : list (string * list byte)) (rows : list row)
  : result (list row) :=
  match files with
  | [] => Ok rows
  | (rel_path, buf) :: files' =>
      match dump_file rel_path (open_rb buf, rows) with
      | Ok (_, (_, rows')) => dump_script files' rows'
      | Raise e => Raise e
      end
  end.

(** [import_script] over the files [get_files] found: the files written. *)
Fixpoint import_script (translation_map : gmap string (gmap Z text))
  (files : list (string * list byte)) : result (list (string * list byte)) :=
  match files with
  | [] => Ok []
  | (rel_path, buf) :: files' =>
      match repack (file_map translation_map rel_path) buf with
      | Raise e => Raise e
      | Ok out =>
          match import_script translation_map files' with
          | Ok written => Ok ((rel_path, out) :: written)
          | Raise e => Raise e
          end
      end
  end.

(** ** The layout of section 4.1, as a formula on the buffer

    These definitions follow the words of the specification, not the code:
    they are what [parse_header] is compared with. *)

Inductive HeaderVariant : Type :=
| NoLengthPrefixVersioned
| LengthPrefixedVersioned
| Unversioned.

(** The bytes at offsets [i], [i+1], [i+2] are ['V'], ['E'], ['R']. *)
Definition magic_at (buf : list byte) (i : nat) : bool :=
  match take 3 (drop i buf) with
  | [b0; b1; b2] =>
      (byte_val b0 =? 0x56) && (byte_val b1 =? 0x45) && (byte_val b2 =? 0x52)
  | _ => false
  end.

Definition byte0_is (buf : list byte) (v : Z) : bool :=
  match take 1 buf with
  | [b0] => byte_val b0 =? v
  | _ => false
  end.

Definition classify (buf : list byte) : HeaderVariant :=
  if magic_at buf 0 then NoLengthPrefixVersioned
  else if byte0_is buf 9 && magic_at buf 4 then LengthPrefixedVersioned
  else Unversioned.

(** The 4-byte little-endian count at offset [cursor], when the buffer holds
    all four bytes. *)
Definition le32_at (buf : list byte) (cursor : Z) : option Z :=
  match take 4 (drop (Z.to_nat cursor) buf) with
  | [b0; b1; b2; b3] =>
      Some (byte_val b0 + 2 ^ 8 * byte_val b1 + 2 ^ 16 * byte_val b2
            + 2 ^ 24 * byte_val b3)
  | _ => None
  end.

(** Read a count at [cursor] and advance over [count] records. *)
Definition skip_table (buf : list byte) (record_size cursor : Z) : option Z :=
  match le32_at buf cursor with
  | Some count => Some (cursor + 4 + count * record_size)
  | None => None
  end.

Definition locate_formula (buf : list byte) : option Z :=
  let start :=
    match classify buf with
    | NoLengthPrefixVersioned => skip_table buf 4 9
    | LengthPrefixedVersioned => skip_table buf 4 13
    | Unversioned => Some 0
    end in
  match start with
  | Some cursor =>
      match skip_table buf 8 cursor with
      | Some cursor' => skip_table buf 8 cursor'
      | None => None
      end
  | None => None
  end.

(** The value a computation returned, if it returned. *)
Definition result_value {A} (r : result A) : option A :=
  match r with
  | Ok a => Some a
  | Raise _ => None
  end.

(** ** The string table, as stored *)

(** The cursor moved [k] bytes on. *)
Definition advance (f : rfile) (k : Z) : rfile :=
  {| data := data f; pos := pos f + k |}.

(** The file whose cursor stands between [before] and [after]. *)
Definition cursor_at (before after : list byte) : rfile :=
  {| data := before ++ after; pos := Z.of_nat (length before) |}.

(** An entry as it lies in the file: the length field, then the content. *)
Definition stored_entry (content : list byte) : list byte :=
  le32 (Z.of_nat (length content)) ++ content.

(** The text [read_string_entry] makes of a content that is wholly there. *)
Definition entry_text (content : list byte) : text :=
  if ends_with_nul content then utf8_decode (removelast content)
  else utf8_decode content.

(** The text [import_script] writes for entry [i]. *)
Definition text_to_write (current_file_map : gmap Z text) (i : Z)
  (original_text : option text) : option text :=
  if truthy (current_file_map !! i) then current_file_map !! i
  else original_text.

(** The bytes one call of [write_string_entry] appends. *)
Definition written_entry (v : option text) : result (list byte) :=
  match write_string_entry v [] with
  | Ok (_, out) => Ok out
  | Raise e => Raise e
  end.

(** The bytes the import loop appends for the entries [contents], the first
    of which has index [i]. *)
Fixpoint rewritten_entries (current_file_map : gmap Z text) (i : Z)
  (contents : list (list byte)) : result (list byte) :=
  match contents with
  | [] => Ok []
  | c :: contents' =>
      match written_entry
              (text_to_write current_file_map i (Some (entry_text c))) with
      | Raise e => Raise e
      | Ok bs =>
          match rewritten_entries current_file_map (i + 1) contents' with
          | Ok r => Ok (bs ++ r)
          | Raise e => Raise e
          end
      end
  end.

(** The rows the dump loop appends for the entries [contents], the first of
    which has index [i]. *)
Fixpoint dumped_rows (rel_path : string) (i : Z) (contents : list (list byte))
  : list row :=
  match contents with
  | [] => []
  | c :: contents' =>
      {| file := rel_path; id := i; original := sanitize (entry_text c);
         translation := [] |} :: dumped_rows rel_path (i + 1) contents'
  end.

(** The string count stored at the string-table offset [off]. *)
Definition str_count_at (buf : list byte) (off : Z) : option Z :=
  le32_at buf off.

(** The content's length fits the 4-byte field stored before it. *)
Definition fits_length_field (content : list byte) : Prop :=
  Z.of_nat (length content) <= 0xFFFFFFFF.

(** Every code point of [t] is a Unicode scalar value. *)
Definition unicode_text (t : text) : Prop :=
  Forall (fun ch => is_scalar ch = true) t.

(** [bs] is the UTF-8 encoding of some Unicode text. *)
Definition valid_utf8 (bs : list byte) : Prop :=
  exists t, unicode_text t /\ utf8_encode t = Ok bs.

(** A content of positive length that ends in a 0x00 byte, the bytes before
    it being valid UTF-8. *)
Definition terminated_utf8 (content : list byte) : Prop :=
  exists b, content = b ++ [x00] /\ valid_utf8 b.

(** A translation map that asks for no change at any index. *)
Definition all_empty (current_file_map : gmap Z text) : Prop :=
  forall i, current_file_map !! i = None
            \/ current_file_map !! i = Some ([] : text).

(** ** Sample files *)

Definition bytes_of (l : list Z) : list byte := map byte_of l.

(** No version block, both code tables empty, [str_count] = 3, five opaque
    bytes. *)
Definition sample_header : list byte :=
  bytes_of [0; 0; 0; 0;  0; 0; 0; 0;  3; 0; 0; 0;  1; 2; 3; 4; 5].

(** ["Hello"] and ["World"], each with its terminator. *)
Definition sample_entries : list (list byte) :=
  [bytes_of [72; 101; 108; 108; 111; 0]; bytes_of [87; 111; 114; 108; 100; 0]].

(** The third, excluded entry (["End"]) and three trailing bytes. *)
Definition sample_tail : list byte :=
  bytes_of [4; 0; 0; 0;  69; 110; 100; 0;  9; 9; 9].

Definition sample_file : list byte :=
  sample_header ++ flat_map stored_entry sample_entries ++ sample_tail.

(** ['VER'] at offset 0, one 4-byte record in the version block, one 8-byte
    record in the init-code table, none in the code table. *)
Definition sample_versioned : list byte :=
  bytes_of [0x56; 0x45; 0x52; 0x31; 0x2E; 0x30; 0; 0; 0;
            1; 0; 0; 0;  0xAA; 0xBB; 0xCC; 0xDD;
            1; 0; 0; 0;  1; 2; 3; 4; 5; 6; 7; 8;
            0; 0; 0; 0].

(** The same with the version string length-prefixed: 9, then ['VER'] at
    offset 4. *)
Definition sample_length_prefixed : list byte :=
  bytes_of [9; 0; 0; 0;  0x56; 0x45; 0x52; 0x31; 0x2E; 0x30; 0; 0; 0;
            1; 0; 0; 0;  0xAA; 0xBB; 0xCC; 0xDD;
            1; 0; 0; 0;  1; 2; 3; 4; 5; 6; 7; 8;
            0; 0; 0; 0].

(** [str_count] = 2, but the file ends right after the five opaque bytes. *)
Definition truncated_file : list byte :=
  bytes_of [0; 0; 0; 0;  0; 0; 0; 0;  2; 0; 0; 0;  1; 2; 3; 4; 5].

(** ** The CSV side of import_script *)

(** [t.replace(old, new)] for a two-character [old]: the occurrences from the
    left, none overlapping another. *)
Fixpoint replace_pair (p0 p1 : Z) (by_ : text) (t : text) : text :=
  match t with
  | [] => []
  | a :: t' =>
      match t' with
      | b :: rest =>
          if (a =? p0) && (b =? p1) then by_ ++ replace_pair p0 p1 by_ rest
          else a :: replace_pair p0 p1 by_ t'
      | [] => [a]
      end
  end.

(** [trans.replace('\\n', '\n').replace('\\r', '\r')] *)
Definition unescape (t : text) : text :=
  replace_pair 92 114 [13] (replace_pair 92 110 [10] t).

(** The body of the loop over the rows of the CSV file.  A [row] here is what
    the loop takes from it: [row['file']], [int(row['id'])] and
    [row['translation']].  The inner dictionary is there when it is updated,
    so the [KeyError] of a missing key cannot occur. *)
Definition add_translation (translation_map : gmap string (gmap Z text))
  (r : row) : gmap string (gmap Z text) :=
  let fname := file r in
  let idx := id r in
  let trans := unescape (translation r) in
  let translation_map :=
    match translation_map !! fname with
    | None => <[fname := ∅]> translation_map
    | Some _ => translation_map
    end in
  alter (insert idx trans) fname translation_map.

(** The translation map of [import_script]: empty without a CSV file. *)
Definition read_translations (csv : option (list row))
  : gmap string (gmap Z text) :=
  match csv with
  | Some rows => foldl add_translation ∅ rows
  | None => ∅
  end.

(** [t] holds [p0] directly followed by [p1] somewhere. *)
Fixpoint has_pair (p0 p1 : Z) (t : text) : bool :=
  match t with
  | [] => false
  | a :: t' =>
      match t' with
      | b :: _ => ((a =? p0) && (b =? p1)) || has_pair p0 p1 t'
      | [] => false
      end
  end.

(** ** What import_script stores *)

(** The UTF-8 bytes of a text that has them. *)
Definition utf8_bytes (t : text) : list byte :=
  match utf8_encode t with
  | Ok b => b
  | Raise _ => []
  end.

(** The text [import_script] writes for entry [i] with content [c]: the
    translation when there is a non-empty one, else the text read. *)
Definition chosen_text (current_file_map : gmap Z text) (i : Z)
  (c : list byte) : text :=
  match current_file_map !! i with
  | Some (ch :: t) => ch :: t
  | _ => entry_text c
  end.

(** The texts written for the entries [contents], the first of which has
    index [i]. *)
Fixpoint chosen_texts (current_file_map : gmap Z text) (i : Z)
  (contents : list (list byte)) : list text :=
  match contents with
  | [] => []
  | c :: contents' =>
      chosen_text current_file_map i c
      :: chosen_texts current_file_map (i + 1) contents'
  end.

(** The contents they are stored with: the UTF-8 bytes and a terminator. *)
Definition imported_entries (current_file_map : gmap Z text) (i : Z)
  (contents : list (list byte)) : list (list byte) :=
  map (fun t => utf8_bytes t ++ [x00]) (chosen_texts current_file_map i contents).

(** Every translation of the map is Unicode text. *)
Definition unicode_map (current_file_map : gmap Z text) : Prop :=
  forall i t, current_file_map !! i = Some t -> unicode_text t.


(** ["Bonjour"] for entry 0 of [sample_file], nothing for the others. *)
Definition sample_map : gmap Z text :=
  <[0 := [66; 111; 110; 106; 111; 117; 114]]> ∅.


(** ** Predicates on rows and files *)

(** A row as [dump_script] emits it for the file [rel_path]: no translation
    yet, and no line end in the original. *)
Definition dumped_row (rel_path : string) (r : row) : Prop :=
  file r = rel_path /\ translation r = [] /\
  Forall (fun ch => ch <> 10 /\ ch <> 13) (original r).

(** A computation on a file and the rows collected so far that only adds
    rows at the end, and does the same whatever rows are there. *)
Definition appends_rows {A} (m : M (rfile * list row) A) : Prop :=
  forall f rows,
    m (f, rows) =
    match m (f, []) with
    | Ok (a, (f', new)) => Ok (a, (f', rows ++ new))
    | Raise e => Raise e
    end.

(** A file laid out as section 6 has it, whose entries before the last one
    are terminated and valid UTF-8. *)
Definition container (buf : list byte) : Prop :=
  exists header entries rest off str_count,
    locate buf = Ok off /\
    buf = header ++ flat_map stored_entry entries ++ rest /\
    Z.of_nat (length header) = off + 9 /\
    str_count_at buf off = Some str_count /\
    Z.to_nat (str_count - 1) = length entries /\
    Forall fits_length_field entries /\
    Forall terminated_utf8 entries.


(** The rows of [sample_file], dumped as [scene.binu8]. *)
Definition sample_rows : list row :=
  [{| file := "scene.binu8"; id := 0;
      original := [72; 101; 108; 108; 111]; translation := [] |};
   {| file := "scene.binu8"; id := 1;
      original := [87; 111; 114; 108; 100]; translation := [] |}].

(** * Proofs *)

(** ** Bytes and 32-bit fields *)

Lemma byte_val_range (b : byte) : 0 <= byte_val b < 256.
Proof.
  unfold byte_val. pose proof (Byte.to_N_bounded b). lia.
Qed.

Lemma byte_of_val (b : byte) : byte_of (byte_val b) = b.
Proof.
  unfold byte_of, byte_val. now rewrite N2Z.id, Byte.of_to_N.
Qed.

Lemma byte_val_of (z : Z) : 0 <= z < 256 -> byte_val (byte_of z) = z.
Proof.
  intros Hz. unfold byte_of, byte_val.
  destruct (Byte.of_N (Z.to_N z)) as [b|] eqn:E.
  - apply Byte.to_of_N in E. rewrite E. lia.
  - apply Byte.of_N_None_iff in E. lia.
Qed.

Lemma byte2int_le32 (n : Z) :
  0 <= n <= 0xFFFFFFFF -> byte2int (le32 n) = Ok n.
Proof.
  intros Hn. unfold le32, byte2int.
  rewrite !byte_val_of by (apply Z.mod_pos_bound; lia).
  f_equal. Z.div_mod_to_equations. lia.
Qed.

Lemma le32_byte2int (b0 b1 b2 b3 : byte) (n : Z) :
  byte2int [b0; b1; b2; b3] = Ok n -> le32 n = [b0; b1; b2; b3].
Proof.
  intros H. injection H as <-.
  pose proof (byte_val_range b0). pose proof (byte_val_range b1).
  pose proof (byte_val_range b2). pose proof (byte_val_range b3).
  set (n := byte_val b0 + 2 ^ 8 * byte_val b1 + 2 ^ 16 * byte_val b2
            + 2 ^ 24 * byte_val b3).
  assert (E0 : n mod 256 = byte_val b0)
    by (subst n; Z.div_mod_to_equations; lia).
  assert (E1 : n / 2 ^ 8 mod 256 = byte_val b1)
    by (subst n; Z.div_mod_to_equations; lia).
  assert (E2 : n / 2 ^ 16 mod 256 = byte_val b2)
    by (subst n; Z.div_mod_to_equations; lia).
  assert (E3 : n / 2 ^ 24 mod 256 = byte_val b3)
    by (subst n; Z.div_mod_to_equations; lia).
  unfold le32. rewrite E0, E1, E2, E3. now rewrite !byte_of_val.
Qed.

Lemma byte2int_inv (bs : list byte) (n : Z) :
  byte2int bs = Ok n ->
  exists b0 b1 b2 b3, bs = [b0; b1; b2; b3] /\ 0 <= n <= 0xFFFFFFFF.
Proof.
  destruct bs as [|b0 [|b1 [|b2 [|b3 [|b4 bs]]]]]; try discriminate.
  intros H. injection H as <-. exists b0, b1, b2, b3. split; [reflexivity|].
  pose proof (byte_val_range b0). pose proof (byte_val_range b1).
  pose proof (byte_val_range b2). pose proof (byte_val_range b3). lia.
Qed.

(** ** Stepping through the file operations *)

Lemma bind_seek {A} (n : Z) (k : unit -> M rfile A) (f : rfile) :
  bind (seek n) k f = k tt {| data := data f; pos := n |}.
Proof. reflexivity. Qed.

Lemma bind_seek_cur {A} (n : Z) (k : unit -> M rfile A) (f : rfile) :
  bind (seek_cur n) k f = k tt (advance f n).
Proof. reflexivity. Qed.

Lemma bind_lift {S A B} (r : result A) (k : A -> M S B) (s : S) :
  bind (lift r) k s = match r with Ok a => k a s | Raise e => Raise e end.
Proof. destruct r; reflexivity. Qed.

Lemma remaining_eq (f : rfile) :
  0 <= pos f -> remaining f = drop (Z.to_nat (pos f)) (data f).
Proof.
  intros Hp. unfold remaining, size.
  destruct (Z.leb_spec (Z.of_nat (length (data f))) (pos f)); [|reflexivity].
  symmetry. apply drop_ge. lia.
Qed.

Lemma read_eq (n : Z) (f : rfile) :
  0 <= pos f -> 0 <= n ->
  read n f =
  let bs := take (Z.to_nat n) (drop (Z.to_nat (pos f)) (data f)) in
  Ok (bs, advance f (Z.of_nat (length bs))).
Proof.
  intros Hp Hn. unfold read. rewrite remaining_eq by assumption.
  set (rest := drop _ _).
  destruct (Z.leb_spec (Z.of_nat (length rest)) n); [|reflexivity].
  cbv zeta. rewrite take_ge by lia. reflexivity.
Qed.

Lemma bind_read_count {A} (f : rfile) (k : Z -> M rfile A) :
  0 <= pos f ->
  bind (read 4) (fun cnt => bind (lift (byte2int cnt)) k) f =
  match le32_at (data f) (pos f) with
  | Some v => k v (advance f 4)
  | None => Raise struct_error
  end.
Proof.
  intros Hp. unfold bind. rewrite read_eq by lia.
  unfold lift, le32_at. change (Z.to_nat 4) with 4%nat. cbv zeta.
  destruct (take 4 (drop (Z.to_nat (pos f)) (data f)))
    as [|b0 [|b1 [|b2 [|b3 [|b4 bs]]]]]; reflexivity.
Qed.

Lemma le32_at_inv (buf : list byte) (c v : Z) :
  0 <= c -> le32_at buf c = Some v ->
  c + 4 <= Z.of_nat (length buf) /\ 0 <= v <= 0xFFFFFFFF.
Proof.
  intros Hc. unfold le32_at.
  destruct (take 4 (drop (Z.to_nat c) buf))
    as [|b0 [|b1 [|b2 [|b3 [|b4 bs]]]]] eqn:E; try discriminate.
  intros H. injection H as <-.
  apply (f_equal length) in E. rewrite length_take, length_drop in E.
  change (length [b0; b1; b2; b3]) with 4%nat in E.
  pose proof (byte_val_range b0). pose proof (byte_val_range b1).
  pose proof (byte_val_range b2). pose proof (byte_val_range b3). lia.
Qed.

(** What the two magic tests of [parse_header] come to on [version], the
    first nine bytes of [buf]. *)
Lemma header_tests (buf : list byte) :
  let version := take 9 buf in
  let t1 := py_and (item_eq version 0 0x56)
              (py_and (item_eq version 1 0x45) (item_eq version 2 0x52)) in
  let t2 := py_and (item_eq version 0 9)
              (py_and (item_eq version 4 0x56)
              (py_and (item_eq version 5 0x45) (item_eq version 6 0x52))) in
  (t1 = Ok true /\ classify buf = NoLengthPrefixVersioned) \/
  (t1 = Ok false /\ t2 = Ok true /\ classify buf = LengthPrefixedVersioned) \/
  (t1 = Ok false /\ t2 = Ok false /\ classify buf = Unversioned) \/
  ((t1 = Raise IndexError \/ (t1 = Ok false /\ t2 = Raise IndexError))
   /\ classify buf = Unversioned /\ (length buf < 7)%nat).
Proof.
  unfold classify, magic_at, byte0_is, item_eq, getitem, py_and.
  destruct buf as [|b0 [|b1 [|b2 [|b3 [|b4 [|b5 [|b6 buf]]]]]]]; simpl;
    repeat match goal with
           | |- context [byte_val ?b =? ?c] => destruct (byte_val b =? c)
           end; simpl; auto 10 with lia.
Qed.

Lemma bind_assoc {S A B C} (m : M S A) (k1 : A -> M S B) (k2 : B -> M S C)
  (s : S) :
  bind (bind m k1) k2 s = bind m (fun x => bind (k1 x) k2) s.
Proof.
  unfold bind. destruct (m s) as [[a s']|e]; reflexivity.
Qed.

Lemma bind_read {A} (n : Z) (k : list byte -> M rfile A) (f : rfile) :
  0 <= pos f -> 0 <= n ->
  bind (read n) k f =
  k (take (Z.to_nat n) (drop (Z.to_nat (pos f)) (data f)))
    (advance f (Z.of_nat (length (take (Z.to_nat n)
                                    (drop (Z.to_nat (pos f)) (data f)))))).
Proof.
  intros Hp Hn. unfold bind. now rewrite read_eq by assumption.
Qed.

(** The version block: seek to [c], read a count, skip that many 4-byte
    records. *)
Lemma skip_version_block (c : Z) (f : rfile) :
  0 <= c ->
  (_ <- seek c ;;
   cnt <- read 4 ;;
   unk_count <- lift (byte2int cnt) ;;
   seek_cur (unk_count * 4)) f =
  match skip_table (data f) 4 c with
  | Some c' => Ok (tt, {| data := data f; pos := c' |})
  | None => Raise struct_error
  end.
Proof.
  intros Hc. rewrite bind_seek, bind_read_count by (simpl; lia).
  unfold skip_table. simpl.
  destruct (le32_at (data f) c) as [v|]; reflexivity.
Qed.

(** The init-code table and the code table, then [tell]. *)
Lemma skip_code_tables (f : rfile) :
  0 <= pos f ->
  (cnt <- read 4 ;;
   init_code_count <- lift (byte2int cnt) ;;
   _ <- seek_cur (init_code_count * 8) ;;
   cnt <- read 4 ;;
   code_count <- lift (byte2int cnt) ;;
   _ <- seek_cur (code_count * 8) ;;
   tell) f =
  match skip_table (data f) 8 (pos f) with
  | Some c' =>
      match skip_table (data f) 8 c' with
      | Some off => Ok (off, {| data := data f; pos := off |})
      | None => Raise struct_error
      end
  | None => Raise struct_error
  end.
Proof.
  intros Hp. rewrite bind_read_count by assumption. unfold skip_table.
  destruct (le32_at (data f) (pos f)) as [ic|] eqn:E1; [|reflexivity].
  apply le32_at_inv in E1 as [_ Hic]; [|assumption].
  rewrite bind_seek_cur, bind_read_count by (simpl; lia). simpl.
  destruct (le32_at (data f) (pos f + 4 + ic * 8)) as [cc|] eqn:E2.
  - reflexivity.
  - reflexivity.
Qed.

(** [parse_header] computes the formula, and leaves the cursor at the offset
    it returns; where the formula is undefined it raises. *)
Lemma parse_header_refines (f : rfile) :
  match locate_formula (data f) with
  | Some off => parse_header f = Ok (off, {| data := data f; pos := off |})
  | None => exists e, parse_header f = Raise e
  end.
Proof.
  remember (parse_header f) as r eqn:Hr.
  assert (Hskip : forall c c', 0 <= c -> skip_table (data f) 4 c = Some c' ->
                               0 <= c').
  { intros c c' Hc. unfold skip_table.
    destruct (le32_at (data f) c) as [v|] eqn:E; [|discriminate].
    apply le32_at_inv in E; [|assumption]. intros [= <-]. lia. }
  unfold parse_header in Hr. unfold locate_formula.
  rewrite bind_seek, bind_read in Hr by (simpl; lia).
  simpl pos in Hr. simpl data in Hr.
  change (Z.to_nat 0) with 0%nat in Hr. rewrite drop_0 in Hr.
  change (Z.to_nat 9) with 9%nat in Hr. rewrite bind_lift in Hr.
  destruct (header_tests (data f))
    as [(H1 & Hc)|[(H1 & H2 & Hc)|[(H1 & H2 & Hc)|(Ht & Hc & Hlen)]]];
    cbv zeta in *; rewrite Hc.
  - rewrite H1 in Hr. unfold bind at 1 in Hr.
    rewrite skip_version_block in Hr by lia. simpl data in Hr.
    destruct (skip_table (data f) 4 9) as [c1|] eqn:E1.
    + apply Hskip in E1; [|lia].
      rewrite skip_code_tables in Hr by (simpl; lia). simpl in Hr.
      destruct (skip_table (data f) 8 c1) as [c2|]; [|eauto].
      destruct (skip_table (data f) 8 c2) as [c3|]; eauto.
    + eauto.
  - rewrite H1 in Hr. cbv beta iota in Hr.
    rewrite bind_assoc, bind_lift, H2 in Hr. unfold bind at 1 in Hr.
    rewrite skip_version_block in Hr by lia. simpl data in Hr.
    destruct (skip_table (data f) 4 13) as [c1|] eqn:E1.
    + apply Hskip in E1; [|lia].
      rewrite skip_code_tables in Hr by (simpl; lia). simpl in Hr.
      destruct (skip_table (data f) 8 c1) as [c2|]; [|eauto].
      destruct (skip_table (data f) 8 c2) as [c3|]; eauto.
    + eauto.
  - rewrite H1 in Hr. cbv beta iota in Hr.
    rewrite bind_assoc, bind_lift, H2, bind_seek in Hr.
    rewrite skip_code_tables in Hr by (simpl; lia). simpl in Hr.
    destruct (skip_table (data f) 8 0) as [c2|]; [|eauto].
    destruct (skip_table (data f) 8 c2) as [c3|]; eauto.
  - assert (Hnone : match skip_table (data f) 8 0 with
                    | Some cursor' => skip_table (data f) 8 cursor'
                    | None => None
                    end = None).
    { unfold skip_table.
      destruct (le32_at (data f) 0) as [v|] eqn:E; [|reflexivity].
      apply le32_at_inv in E as [_ Hv]; [|lia].
      destruct (le32_at (data f) (0 + 4 + v * 8)) as [w|] eqn:E';
        [|reflexivity].
      apply le32_at_inv in E' as [Hl _]; lia. }
    rewrite Hnone.
    destruct Ht as [H1|[H1 H2]].
    + rewrite H1 in Hr. eauto.
    + rewrite H1 in Hr. cbv beta iota in Hr.
      rewrite bind_assoc, bind_lift, H2 in Hr. eauto.
Qed.

Lemma locate_refines (buf : list byte) :
  result_value (locate buf) = locate_formula buf.
Proof.
  pose proof (parse_header_refines (open_rb buf)) as H. unfold locate.
  simpl data in H.
  destruct (locate_formula buf) as [off|].
  - now rewrite H.
  - destruct H as [e ->]. reflexivity.
Qed.

(** ** The formula reads only the bytes before the offset it yields *)

Lemma take_drop_agree {A} (buf buf' : list A) (k i n : nat) :
  take k buf = take k buf' -> (i + n <= k)%nat ->
  take n (drop i buf) = take n (drop i buf').
Proof.
  intros H Hk. rewrite !take_drop_commute.
  replace (take (i + n) buf) with (take (i + n) (take k buf))
    by (rewrite take_take; f_equal; lia).
  replace (take (i + n) buf') with (take (i + n) (take k buf'))
    by (rewrite take_take; f_equal; lia).
  now rewrite H.
Qed.

Lemma classify_agree (buf buf' : list byte) (k : nat) :
  take k buf = take k buf' -> (7 <= k)%nat -> classify buf = classify buf'.
Proof.
  intros H Hk. unfold classify, magic_at, byte0_is.
  rewrite (take_drop_agree buf buf' k 0 3 H) by lia.
  rewrite (take_drop_agree buf buf' k 4 3 H) by lia.
  pose proof (take_drop_agree buf buf' k 0 1 H) as H1.
  rewrite !drop_0 in H1. now rewrite H1 by lia.
Qed.

Lemma skip_table_agree (buf buf' : list byte) (k : nat) (r c : Z) :
  take k buf = take k buf' -> 0 <= c -> c + 4 <= Z.of_nat k ->
  skip_table buf r c = skip_table buf' r c.
Proof.
  intros H Hc Hk. unfold skip_table, le32_at.
  now rewrite (take_drop_agree buf buf' k (Z.to_nat c) 4 H) by lia.
Qed.

Lemma skip_table_inv (buf : list byte) (r c c' : Z) :
  0 <= c -> 0 <= r -> skip_table buf r c = Some c' ->
  c + 4 <= c' /\ c + 4 <= Z.of_nat (length buf).
Proof.
  intros Hc Hr. unfold skip_table.
  destruct (le32_at buf c) as [v|] eqn:E; [|discriminate].
  apply le32_at_inv in E; [|assumption]. intros [= <-]. nia.
Qed.

Lemma locate_formula_agree (buf buf' : list byte) (off : Z) :
  locate_formula buf = Some off ->
  take (Z.to_nat off) buf' = take (Z.to_nat off) buf ->
  locate_formula buf' = Some off.
Proof.
  unfold locate_formula. intros Hf Hagree. symmetry in Hagree.
  destruct (classify buf) eqn:Hc.
  - destruct (skip_table buf 4 9) as [c1|] eqn:E1; [|discriminate].
    destruct (skip_table buf 8 c1) as [c2|] eqn:E2; [|discriminate].
    pose proof E1 as IE1.
    apply skip_table_inv in IE1 as [? ?]; [|lia|lia].
    pose proof E2 as IE2.
    apply skip_table_inv in IE2 as [? ?]; [|lia|lia].
    pose proof Hf as IHf.
    apply skip_table_inv in IHf as [? ?]; [|lia|lia].
    rewrite <- (classify_agree _ _ _ Hagree), Hc by lia.
    rewrite <- (skip_table_agree _ _ _ 4 9 Hagree), E1 by lia.
    rewrite <- (skip_table_agree _ _ _ 8 c1 Hagree), E2 by lia.
    now rewrite <- (skip_table_agree _ _ _ 8 c2 Hagree) by lia.
  - destruct (skip_table buf 4 13) as [c1|] eqn:E1; [|discriminate].
    destruct (skip_table buf 8 c1) as [c2|] eqn:E2; [|discriminate].
    pose proof E1 as IE1.
    apply skip_table_inv in IE1 as [? ?]; [|lia|lia].
    pose proof E2 as IE2.
    apply skip_table_inv in IE2 as [? ?]; [|lia|lia].
    pose proof Hf as IHf.
    apply skip_table_inv in IHf as [? ?]; [|lia|lia].
    rewrite <- (classify_agree _ _ _ Hagree), Hc by lia.
    rewrite <- (skip_table_agree _ _ _ 4 13 Hagree), E1 by lia.
    rewrite <- (skip_table_agree _ _ _ 8 c1 Hagree), E2 by lia.
    now rewrite <- (skip_table_agree _ _ _ 8 c2 Hagree) by lia.
  - destruct (skip_table buf 8 0) as [c2|] eqn:E2; [|discriminate].
    pose proof E2 as IE2.
    apply skip_table_inv in IE2 as [? ?]; [|lia|lia].
    pose proof Hf as IHf.
    apply skip_table_inv in IHf as [? ?]; [|lia|lia].
    rewrite <- (classify_agree _ _ _ Hagree), Hc by lia.
    rewrite <- (skip_table_agree _ _ _ 8 0 Hagree), E2 by lia.
    now rewrite <- (skip_table_agree _ _ _ 8 c2 Hagree) by lia.
Qed.

(** ** UTF-8: decoding what was encoded *)

Ltac decide_test :=
  match goal with
  | |- context [?a <? ?b] =>
      first [ replace (a <? b) with true by (symmetry; apply Z.ltb_lt; lia)
            | replace (a <? b) with false by (symmetry; apply Z.ltb_ge; lia) ]
  | |- context [?a <=? ?b] =>
      first [ replace (a <=? b) with true by (symmetry; apply Z.leb_le; lia)
            | replace (a <=? b) with false by (symmetry; apply Z.leb_gt; lia) ]
  | |- context [?a =? ?b] =>
      first [ replace (a =? b) with true by (symmetry; apply Z.eqb_eq; lia)
            | replace (a =? b) with false by (symmetry; apply Z.eqb_neq; lia) ]
  end.

Ltac decide_tests := repeat (decide_test; cbv beta iota zeta; cbn [negb orb andb]).

Lemma decode_1 (v0 : Z) (s1 : list byte) :
  0 <= v0 < 0x80 ->
  utf8_decode (byte_of v0 :: s1) = v0 :: utf8_decode s1.
Proof.
  intros H0. cbn [utf8_decode]. rewrite byte_val_of by lia.
  now decide_tests.
Qed.

Lemma decode_2 (v0 v1 : Z) (s2 : list byte) :
  0xC2 <= v0 < 0xE0 -> 0x80 <= v1 < 0xC0 ->
  utf8_decode (byte_of v0 :: byte_of v1 :: s2) =
  (v0 * 2 ^ 6 + v1 - (0xC0 * 2 ^ 6 + 0x80)) :: utf8_decode s2.
Proof.
  intros H0 H1. remember (byte_of v1 :: s2) as s1 eqn:Hs1.
  cbn [utf8_decode]. rewrite byte_val_of by lia. decide_tests.
  subst s1. cbv beta iota zeta. rewrite byte_val_of by lia.
  unfold is_continuation. now decide_tests.
Qed.

Lemma decode_3 (v0 v1 v2 : Z) (s3 : list byte) :
  0xE0 <= v0 < 0xF0 -> 0x80 <= v1 < 0xC0 -> 0x80 <= v2 < 0xC0 ->
  (v0 = 0xE0 -> 0xA0 <= v1) -> (v0 = 0xED -> v1 < 0xA0) ->
  utf8_decode (byte_of v0 :: byte_of v1 :: byte_of v2 :: s3) =
  (v0 * 2 ^ 12 + v1 * 2 ^ 6 + v2 - (0xE0 * 2 ^ 12 + 0x80 * 2 ^ 6 + 0x80))
  :: utf8_decode s3.
Proof.
  intros H0 H1 H2 HE0 HED.
  remember (byte_of v1 :: byte_of v2 :: s3) as s1 eqn:Hs1.
  cbn [utf8_decode]. rewrite byte_val_of by lia. decide_tests.
  subst s1. cbv beta iota zeta. rewrite !byte_val_of by lia.
  unfold is_continuation.
  destruct (Z.ltb_spec v1 0xA0); now decide_tests.
Qed.

Lemma decode_4 (v0 v1 v2 v3 : Z) (s4 : list byte) :
  0xF0 <= v0 < 0xF5 -> 0x80 <= v1 < 0xC0 -> 0x80 <= v2 < 0xC0 ->
  0x80 <= v3 < 0xC0 ->
  (v0 = 0xF0 -> 0x90 <= v1) -> (v0 = 0xF4 -> v1 < 0x90) ->
  utf8_decode (byte_of v0 :: byte_of v1 :: byte_of v2 :: byte_of v3 :: s4) =
  (v0 * 2 ^ 18 + v1 * 2 ^ 12 + v2 * 2 ^ 6 + v3
   - (0xF0 * 2 ^ 18 + 0x80 * 2 ^ 12 + 0x80 * 2 ^ 6 + 0x80))
  :: utf8_decode s4.
Proof.
  intros H0 H1 H2 H3 HF0 HF4.
  remember (byte_of v1 :: byte_of v2 :: byte_of v3 :: s4) as s1 eqn:Hs1.
  cbn [utf8_decode]. rewrite byte_val_of by lia. decide_tests.
  subst s1. cbv beta iota zeta. rewrite !byte_val_of by lia.
  unfold is_continuation.
  destruct (Z.ltb_spec v1 0x90); now decide_tests.
Qed.

(** The bit operations of the encoder, as arithmetic. *)
Lemma lor_small (a x : Z) (n : nat) :
  (forall k, (k < n)%nat -> Z.lor a (Z.of_nat k) = a + Z.of_nat k) ->
  0 <= x < Z.of_nat n -> Z.lor a x = a + x.
Proof.
  intros H Hx. replace x with (Z.of_nat (Z.to_nat x)) by lia.
  apply H. lia.
Qed.

Lemma lor_80 (x : Z) : 0 <= x < 64 -> Z.lor 0x80 x = 0x80 + x.
Proof.
  apply (lor_small 0x80 x 64). intros k Hk.
  do 64 (destruct k as [|k]; [reflexivity|]). lia.
Qed.

Lemma lor_C0 (x : Z) : 0 <= x < 32 -> Z.lor 0xC0 x = 0xC0 + x.
Proof.
  apply (lor_small 0xC0 x 32). intros k Hk.
  do 32 (destruct k as [|k]; [reflexivity|]). lia.
Qed.

Lemma lor_E0 (x : Z) : 0 <= x < 16 -> Z.lor 0xE0 x = 0xE0 + x.
Proof.
  apply (lor_small 0xE0 x 16). intros k Hk.
  do 16 (destruct k as [|k]; [reflexivity|]). lia.
Qed.

Lemma lor_F0 (x : Z) : 0 <= x < 8 -> Z.lor 0xF0 x = 0xF0 + x.
Proof.
  apply (lor_small 0xF0 x 8). intros k Hk.
  do 8 (destruct k as [|k]; [reflexivity|]). lia.
Qed.

Lemma land_3F (x : Z) : Z.land x 0x3F = x mod 64.
Proof.
  change 0x3F with (Z.ones 6). now rewrite Z.land_ones by lia.
Qed.

Lemma shiftr_div (x n : Z) : 0 <= n -> Z.shiftr x n = x / 2 ^ n.
Proof. intros Hn. now apply Z.shiftr_div_pow2. Qed.

(** What [encode_cp] yields on a scalar value, without bit operations. *)
Lemma encode_cp_scalar (ch : Z) :
  is_scalar ch = true ->
  encode_cp ch =
  Ok (if ch <? 0x80 then [byte_of ch]
      else if ch <? 0x800 then
        [byte_of (0xC0 + ch / 64); byte_of (0x80 + ch mod 64)]
      else if ch <? 0x10000 then
        [byte_of (0xE0 + ch / 4096); byte_of (0x80 + ch / 64 mod 64);
         byte_of (0x80 + ch mod 64)]
      else
        [byte_of (0xF0 + ch / 262144); byte_of (0x80 + ch / 4096 mod 64);
         byte_of (0x80 + ch / 64 mod 64); byte_of (0x80 + ch mod 64)]).
Proof.
  unfold is_scalar, encode_cp. intros Hs.
  apply andb_true_iff in Hs as [Hs Hsur].
  apply andb_true_iff in Hs as [Hlo Hhi].
  apply Z.leb_le in Hlo, Hhi. apply negb_true_iff in Hsur. rewrite Hsur.
  rewrite !land_3F, !shiftr_div by lia.
  change (2 ^ 6) with 64. change (2 ^ 12) with 4096.
  change (2 ^ 18) with 262144.
  destruct (Z.ltb_spec ch 0x80); [reflexivity|].
  destruct (Z.ltb_spec ch 0x800).
  { rewrite lor_C0, lor_80; [reflexivity| |];
      Z.div_mod_to_equations; lia. }
  destruct (Z.ltb_spec ch 0x10000).
  { rewrite lor_E0, !lor_80; [reflexivity| | |];
      Z.div_mod_to_equations; lia. }
  rewrite lor_F0, !lor_80; [reflexivity| | | |];
    Z.div_mod_to_equations; lia.
Qed.

Lemma is_scalar_spec (ch : Z) :
  is_scalar ch = true ->
  0 <= ch <= 0x10FFFF /\ (ch < 0xD800 \/ 0xDFFF < ch).
Proof.
  unfold is_scalar. intros Hs.
  apply andb_true_iff in Hs as [Hs Hsur].
  apply andb_true_iff in Hs as [Hlo Hhi].
  apply Z.leb_le in Hlo, Hhi. apply negb_true_iff in Hsur.
  apply andb_false_iff in Hsur as [H|H]; apply Z.leb_gt in H; lia.
Qed.

Lemma decode_encode_cp (ch : Z) (rest : list byte) :
  is_scalar ch = true ->
  exists bs, encode_cp ch = Ok bs /\
             utf8_decode (bs ++ rest) = ch :: utf8_decode rest.
Proof.
  intros Hs. rewrite (encode_cp_scalar ch Hs).
  apply is_scalar_spec in Hs as [Hr Hsur].
  eexists. split; [reflexivity|].
  destruct (Z.ltb_spec ch 0x80).
  { simpl app. now rewrite decode_1 by lia. }
  destruct (Z.ltb_spec ch 0x800).
  { simpl app. rewrite decode_2 by (Z.div_mod_to_equations; lia).
    f_equal. Z.div_mod_to_equations. lia. }
  destruct (Z.ltb_spec ch 0x10000).
  { simpl app. rewrite decode_3 by (Z.div_mod_to_equations; lia).
    f_equal. Z.div_mod_to_equations. lia. }
  simpl app. rewrite decode_4 by (Z.div_mod_to_equations; lia).
  f_equal. Z.div_mod_to_equations. lia.
Qed.

(** Encoding never fails on Unicode text, and decoding gives the text back. *)
Lemma utf8_roundtrip (t : text) :
  unicode_text t ->
  exists bs, utf8_encode t = Ok bs /\ utf8_decode bs = t.
Proof.
  induction 1 as [|ch t Hch Ht IH].
  - exists []. split; reflexivity.
  - destruct IH as (r & Hr & Hd).
    destruct (decode_encode_cp ch r Hch) as (bs & Hbs & Hdec).
    exists (bs ++ r). simpl. rewrite Hbs, Hr. split; [reflexivity|].
    now rewrite Hdec, Hd.
Qed.

(** ** UTF-8: what the decoder yields is always encodable *)

Lemma is_scalar_intro (x : Z) :
  0 <= x <= 0x10FFFF -> (x < 0xD800 \/ 0xDFFF < x) -> is_scalar x = true.
Proof.
  intros Hr Hs. unfold is_scalar.
  apply andb_true_iff. split; [apply andb_true_iff; split|].
  - apply Z.leb_le. lia.
  - apply Z.leb_le. lia.
  - apply negb_true_iff, andb_false_iff.
    destruct Hs; [left; apply Z.leb_gt | right; apply Z.leb_gt]; lia.
Qed.

Ltac tests_to_props :=
  repeat match goal with
         | H : _ || _ = false |- _ => apply orb_false_iff in H as [? ?]
         | H : negb _ = false |- _ => apply negb_false_iff in H
         | H : is_continuation _ = true |- _ =>
             unfold is_continuation in H; apply andb_true_iff in H as [? ?]
         | H : (if ?c then _ else _) = false |- _ => destruct c eqn:?
         | H : (_ <? _) = true |- _ => apply Z.ltb_lt in H
         | H : (_ <? _) = false |- _ => apply Z.ltb_ge in H
         | H : (_ <=? _) = true |- _ => apply Z.leb_le in H
         | H : (_ <=? _) = false |- _ => apply Z.leb_gt in H
         | H : (_ =? _) = true |- _ => apply Z.eqb_eq in H
         | H : (_ =? _) = false |- _ => apply Z.eqb_neq in H
         end.

Lemma utf8_decode_scalar_upto (n : nat) :
  forall s, (length s <= n)%nat -> unicode_text (utf8_decode s).
Proof.
  induction n as [|n IH]; intros s Hlen.
  - destruct s; [constructor | simpl in Hlen; lia].
  - destruct s as [|c0 s1]; [constructor|].
    cbn [utf8_decode]. cbv zeta.
    repeat match goal with
           | |- context [match ?l with [] => _ | _ :: _ => _ end] =>
               is_var l; destruct l; cbv beta iota zeta
           | |- context [if ?c then _ else _] =>
               destruct c eqn:?; cbv beta iota zeta
           end;
      repeat match goal with
             | b : byte |- _ =>
                 lazymatch goal with
                 | _ : 0 <= byte_val b < 256 |- _ => fail
                 | _ => pose proof (byte_val_range b)
                 end
             end;
      tests_to_props;
      (constructor;
       [ first [ reflexivity | apply is_scalar_intro; lia ]
       | first [ constructor | apply IH; cbn [length] in *; lia ] ]).
Qed.

Lemma utf8_decode_scalar (s : list byte) : unicode_text (utf8_decode s).
Proof. now apply (utf8_decode_scalar_upto (length s)). Qed.

(** ** The cursor and the bytes after it *)

Lemma advance_0 (f : rfile) : advance f 0 = f.
Proof. destruct f. unfold advance. simpl. now rewrite Z.add_0_r. Qed.

Lemma advance_advance (f : rfile) (a b : Z) :
  advance (advance f a) b = advance f (a + b).
Proof. unfold advance. simpl. now rewrite Z.add_assoc. Qed.

Lemma remaining_advance (f : rfile) (bs post : list byte) :
  0 <= pos f -> remaining f = bs ++ post ->
  remaining (advance f (Z.of_nat (length bs))) = post.
Proof.
  intros Hp H. rewrite remaining_eq in H by assumption.
  rewrite remaining_eq by (simpl; lia). simpl.
  replace (Z.to_nat (pos f + Z.of_nat (length bs)))
    with (Z.to_nat (pos f) + length bs)%nat by lia.
  rewrite <- drop_drop, H. apply drop_app_length.
Qed.

Lemma read_exact (f : rfile) (bs post : list byte) :
  0 <= pos f -> remaining f = bs ++ post ->
  read (Z.of_nat (length bs)) f =
  Ok (bs, advance f (Z.of_nat (length bs))).
Proof.
  intros Hp H. rewrite read_eq by lia. cbv zeta.
  rewrite remaining_eq in H by assumption.
  now rewrite H, Nat2Z.id, take_app_length.
Qed.

Lemma read_upto (f : rfile) (n : Z) :
  0 <= pos f -> 0 <= n ->
  read n f =
  Ok (take (Z.to_nat n) (remaining f),
      advance f (Z.of_nat (length (take (Z.to_nat n) (remaining f))))).
Proof.
  intros Hp Hn. rewrite read_eq by assumption.
  now rewrite remaining_eq by assumption.
Qed.

(** ** read_string_entry and write_string_entry *)

Lemma read_string_entry_eof (f : rfile) :
  0 <= pos f -> remaining f = [] -> read_string_entry f = Ok (None, f).
Proof.
  intros Hp H. unfold read_string_entry, bind.
  rewrite read_upto, H by lia. simpl. unfold ret.
  now rewrite advance_0.
Qed.

Lemma read_string_entry_run (f : rfile) (b0 b1 b2 b3 : byte)
  (rest : list byte) (n : Z) :
  0 <= pos f -> remaining f = b0 :: b1 :: b2 :: b3 :: rest ->
  byte2int [b0; b1; b2; b3] = Ok n ->
  read_string_entry f =
  if 0 <? n then
    let content := take (Z.to_nat n) rest in
    Ok (Some (entry_text content),
        advance f (4 + Z.of_nat (length content)))
  else Ok (Some [], advance f 4).
Proof.
  intros Hp H Hn. unfold read_string_entry, bind.
  change (b0 :: b1 :: b2 :: b3 :: rest) with ([b0; b1; b2; b3] ++ rest) in H.
  pose proof (read_exact f _ _ Hp H) as Hr.
  change (Z.of_nat (length [b0; b1; b2; b3])) with 4 in Hr.
  rewrite Hr. unfold lift at 1. rewrite Hn.
  apply byte2int_inv in Hn as (_ & _ & _ & _ & _ & Hrange).
  pose proof (remaining_advance f _ _ Hp H) as Hrem.
  change (Z.of_nat (length [b0; b1; b2; b3])) with 4 in Hrem.
  destruct (0 <? n); [|reflexivity].
  rewrite read_upto, Hrem by (simpl; lia). rewrite advance_advance.
  unfold entry_text. cbv zeta.
  destruct (ends_with_nul (take (Z.to_nat n) rest)); reflexivity.
Qed.

Lemma read_string_entry_partial (f : rfile) :
  0 <= pos f -> (0 < length (remaining f) < 4)%nat ->
  read_string_entry f = Raise struct_error.
Proof.
  intros Hp Hlen. unfold read_string_entry, bind.
  rewrite read_upto by lia. change (Z.to_nat 4) with 4%nat.
  rewrite take_ge by lia.
  destruct (remaining f) as [|b0 [|b1 [|b2 [|b3 r]]]]; simpl in Hlen;
    try lia; reflexivity.
Qed.

Lemma write_string_entry_run (t : text) (b out : list byte) :
  utf8_encode t = Ok b -> Z.of_nat (length b) + 1 <= 0xFFFFFFFF ->
  write_string_entry (Some t) out =
  Ok (tt, out ++ le32 (Z.of_nat (length b) + 1) ++ b ++ [x00]).
Proof.
  intros Henc Hlen. unfold write_string_entry, bind, lift, write, pack_L.
  rewrite Henc.
  replace (0 <=? Z.of_nat (length b) + 1) with true
    by (symmetry; apply Z.leb_le; lia).
  replace (Z.of_nat (length b) + 1 <=? 0xFFFFFFFF) with true
    by (symmetry; apply Z.leb_le; lia).
  cbn [andb]. now rewrite <- !app_assoc.
Qed.

Lemma pos_cursor_at (pre post : list byte) : 0 <= pos (cursor_at pre post).
Proof. simpl. lia. Qed.

Lemma remaining_cursor_at (pre post : list byte) :
  remaining (cursor_at pre post) = post.
Proof.
  rewrite remaining_eq by apply pos_cursor_at. simpl.
  rewrite Nat2Z.id. apply drop_app_length.
Qed.

Lemma advance_cursor_at (pre bs post : list byte) :
  advance (cursor_at pre (bs ++ post)) (Z.of_nat (length bs)) =
  cursor_at (pre ++ bs) post.
Proof.
  unfold advance, cursor_at. simpl.
  rewrite <- app_assoc, length_app. f_equal. lia.
Qed.

(** An entry whose length field is there, read at the cursor. *)
Lemma read_string_entry_at (pre : list byte) (b0 b1 b2 b3 : byte)
  (rest : list byte) (n : Z) :
  byte2int [b0; b1; b2; b3] = Ok n ->
  read_string_entry (cursor_at pre (b0 :: b1 :: b2 :: b3 :: rest)) =
  if 0 <? n then
    let content := take (Z.to_nat n) rest in
    Ok (Some (entry_text content),
        cursor_at (pre ++ [b0; b1; b2; b3] ++ content)
                  (drop (Z.to_nat n) rest))
  else Ok (Some [], cursor_at (pre ++ [b0; b1; b2; b3]) rest).
Proof.
  intros Hn.
  rewrite (read_string_entry_run _ b0 b1 b2 b3 rest n
             (pos_cursor_at _ _) (remaining_cursor_at _ _) Hn).
  destruct (0 <? n); cbv zeta.
  - do 2 f_equal.
    set (content := take (Z.to_nat n) rest).
    replace (4 + Z.of_nat (length content))
      with (Z.of_nat (length ([b0; b1; b2; b3] ++ content)))
      by (rewrite length_app; simpl length; lia).
    replace (b0 :: b1 :: b2 :: b3 :: rest)
      with (([b0; b1; b2; b3] ++ content) ++ drop (Z.to_nat n) rest).
    + apply advance_cursor_at.
    + rewrite <- app_assoc. subst content. now rewrite take_drop.
  - do 2 f_equal.
    exact (advance_cursor_at pre [b0; b1; b2; b3] rest).
Qed.

Lemma read_stored_entry (pre c rest : list byte) :
  Z.of_nat (length c) <= 0xFFFFFFFF ->
  read_string_entry (cursor_at pre (stored_entry c ++ rest)) =
  Ok (Some (entry_text c), cursor_at (pre ++ stored_entry c) rest).
Proof.
  intros Hlen.
  assert (Hn : byte2int (le32 (Z.of_nat (length c))) = Ok (Z.of_nat (length c)))
    by (apply byte2int_le32; lia).
  unfold stored_entry. unfold le32 in *. cbn [app].
  rewrite (read_string_entry_at pre _ _ _ _ (c ++ rest) _ Hn).
  rewrite Nat2Z.id, take_app_length, drop_app_length. cbv zeta.
  destruct (Z.ltb_spec 0 (Z.of_nat (length c))) as [Hpos|Hz].
  - reflexivity.
  - destruct c; [|simpl in Hz; lia]. reflexivity.
Qed.

Lemma write_string_entry_app (v : option text) (out : wfile) :
  write_string_entry v out =
  match written_entry v with
  | Ok bs => Ok (tt, out ++ bs)
  | Raise e => Raise e
  end.
Proof.
  unfold written_entry, write_string_entry, bind, lift, write, raise.
  destruct v as [t|]; [|reflexivity].
  destruct (utf8_encode t) as [b|e]; [|reflexivity].
  destruct (pack_L (Z.of_nat (length b) + 1)) as [h|e]; [|reflexivity].
  simpl. now rewrite <- !app_assoc.
Qed.

(** ** The two loops over the string table *)

Lemma bind_on_src {S A B} (m : M rfile A) (k : A -> M (rfile * S) B)
  (f : rfile) (w : S) :
  bind (on_src m) k (f, w) =
  match m f with
  | Ok (a, f') => k a (f', w)
  | Raise e => Raise e
  end.
Proof.
  unfold bind, on_src. simpl. destruct (m f) as [[a f']|e]; reflexivity.
Qed.

Lemma on_snd_run {S T A} (m : M T A) (s : S) (t : T) :
  on_snd m (s, t) =
  match m t with
  | Ok (a, t') => Ok (a, (s, t'))
  | Raise e => Raise e
  end.
Proof. reflexivity. Qed.

Lemma import_loop (current_file_map : gmap Z text) (es : list (list byte)) :
  forall (pre rest : list byte) (i : Z) (out : wfile),
  Forall fits_length_field es ->
  for_from (length es) i
    (fun i =>
       original_text <- on_src read_string_entry ;;
       let trans_text := current_file_map !! i in
       let text_to_write :=
         if truthy trans_text then trans_text else original_text in
       on_snd (write_string_entry text_to_write))
    (cursor_at pre (flat_map stored_entry es ++ rest), out) =
  match rewritten_entries current_file_map i es with
  | Ok bs =>
      Ok (tt, (cursor_at (pre ++ flat_map stored_entry es) rest, out ++ bs))
  | Raise e => Raise e
  end.
Proof.
  induction es as [|c es IH]; intros pre rest i out Hfit.
  - simpl. unfold ret. now rewrite !app_nil_r.
  - inversion Hfit as [|? ? Hc Hes]; subst.
    cbn [length for_from flat_map rewritten_entries].
    rewrite <- app_assoc. unfold bind at 1. rewrite bind_on_src.
    rewrite read_stored_entry by assumption. cbv zeta.
    rewrite on_snd_run, write_string_entry_app.
    fold (text_to_write current_file_map i (Some (entry_text c))).
    destruct (written_entry _) as [bs|e]; [|reflexivity].
    rewrite IH by assumption.
    destruct (rewritten_entries current_file_map (i + 1) es) as [r|e];
      [|reflexivity].
    now rewrite !app_assoc.
Qed.

Lemma dump_loop (rel_path : string) (es : list (list byte)) :
  forall (pre rest : list byte) (i : Z) (rows : list row),
  Forall fits_length_field es ->
  for_from (length es) i
    (fun i =>
       text <- on_src read_string_entry ;;
       match text with
       | Some t =>
           on_snd (append_row {| file := rel_path; id := i;
                                 original := sanitize t;
                                 translation := [] |})
       | None => ret tt
       end)
    (cursor_at pre (flat_map stored_entry es ++ rest), rows) =
  Ok (tt, (cursor_at (pre ++ flat_map stored_entry es) rest,
           rows ++ dumped_rows rel_path i es)).
Proof.
  induction es as [|c es IH]; intros pre rest i rows Hfit.
  - simpl. unfold ret. now rewrite !app_nil_r.
  - inversion Hfit as [|? ? Hc Hes]; subst.
    cbn [length for_from flat_map dumped_rows].
    rewrite <- app_assoc. unfold bind at 1. rewrite bind_on_src.
    rewrite read_stored_entry by assumption.
    rewrite on_snd_run. unfold append_row.
    rewrite IH by assumption.
    now rewrite <- !app_assoc.
Qed.

Lemma bind_on_src_read_count {S A} (f : rfile) (w : S)
  (k : Z -> M (rfile * S) A) :
  0 <= pos f ->
  bind (on_src (read 4)) (fun cnt => bind (lift (byte2int cnt)) k) (f, w) =
  match le32_at (data f) (pos f) with
  | Some v => k v (advance f 4, w)
  | None => Raise struct_error
  end.
Proof.
  intros Hp. rewrite bind_on_src, read_eq by lia. cbv zeta.
  unfold bind, lift, le32_at. change (Z.to_nat 4) with 4%nat.
  destruct (take 4 (drop (Z.to_nat (pos f)) (data f)))
    as [|b0 [|b1 [|b2 [|b3 [|b4 bs]]]]]; reflexivity.
Qed.

Lemma parse_header_located (buf : list byte) (off : Z) :
  locate buf = Ok off ->
  parse_header (open_rb buf) = Ok (off, {| data := buf; pos := off |})
  /\ 8 <= off.
Proof.
  intros H. pose proof (locate_refines buf) as Hf. rewrite H in Hf.
  simpl in Hf. symmetry in Hf.
  pose proof (parse_header_refines (open_rb buf)) as Hp.
  simpl data in Hp. rewrite Hf in Hp. split; [exact Hp|].
  unfold locate_formula in Hf.
  assert (Hskip : forall r c c', 0 <= c -> 0 <= r ->
                                 skip_table buf r c = Some c' -> c + 4 <= c').
  { intros r c c' Hc Hr E. now apply skip_table_inv in E as [? _]. }
  destruct (classify buf).
  - destruct (skip_table buf 4 9) as [c1|] eqn:E1; [|discriminate].
    destruct (skip_table buf 8 c1) as [c2|] eqn:E2; [|discriminate].
    apply Hskip in E1; [|lia|lia]. apply Hskip in E2; [|lia|lia].
    apply Hskip in Hf; lia.
  - destruct (skip_table buf 4 13) as [c1|] eqn:E1; [|discriminate].
    destruct (skip_table buf 8 c1) as [c2|] eqn:E2; [|discriminate].
    apply Hskip in E1; [|lia|lia]. apply Hskip in E2; [|lia|lia].
    apply Hskip in Hf; lia.
  - destruct (skip_table buf 8 0) as [c2|] eqn:E2; [|discriminate].
    apply Hskip in E2; [|lia|lia]. apply Hskip in Hf; lia.
Qed.

(** ** A whole file

    The file [buf] is laid out as section 6 has it: [header] reaches to the
    end of the five opaque bytes behind the string count, then come the
    [str_count - 1] entries the loops handle, then [rest]. *)

Section WholeFile.

Variables (buf header rest : list byte) (entries : list (list byte)).
Variables (off str_count : Z).

Hypothesis Hlocate : locate buf = Ok off.
Hypothesis Hlayout : buf = header ++ flat_map stored_entry entries ++ rest.
Hypothesis Hheader : Z.of_nat (length header) = off + 9.
Hypothesis Hcount : str_count_at buf off = Some str_count.
Hypothesis Hentries : Z.to_nat (str_count - 1) = length entries.
Hypothesis Hfits : Forall fits_length_field entries.

(** Where both loops start: behind the count and the five opaque bytes. *)
Lemma table_cursor :
  {| data := buf; pos := off + 4 + 5 |} =
  cursor_at header (flat_map stored_entry entries ++ rest).
Proof using Hlayout Hheader.
  clear Hlocate Hcount Hentries Hfits.
  unfold cursor_at. rewrite <- Hlayout. f_equal. lia.
Qed.

Lemma read_header :
  read (off + 9) {| data := buf; pos := 0 |} =
  Ok (header, cursor_at header (flat_map stored_entry entries ++ rest)).
Proof using Hlayout Hheader.
  clear Hlocate Hcount Hentries Hfits. rewrite <- Hheader.
  pose proof (read_exact (cursor_at [] buf) header
                (flat_map stored_entry entries ++ rest)
                (pos_cursor_at _ _)) as Hr.
  rewrite remaining_cursor_at in Hr. specialize (Hr Hlayout).
  change (cursor_at [] buf) with {| data := buf; pos := 0 |} in Hr.
  rewrite Hr. do 2 f_equal. unfold advance, cursor_at. simpl.
  now rewrite <- Hlayout.
Qed.

Lemma repack_run (current_file_map : gmap Z text) :
  repack current_file_map buf =
  match rewritten_entries current_file_map 0 entries with
  | Ok bs => Ok (header ++ bs ++ rest)
  | Raise e => Raise e
  end.
Proof using All.
  destruct (parse_header_located buf off Hlocate) as [Hparse Hoff].
  unfold repack, import_file.
  rewrite (bind_on_src parse_header), Hparse.
  rewrite (bind_on_src (seek 0)). unfold seek at 1. cbn [data pos].
  rewrite (bind_on_src (read (off + 9))), read_header.
  unfold bind at 1. rewrite on_snd_run. unfold write at 1.
  rewrite (bind_on_src (seek off)). unfold seek at 1. cbn [data pos].
  change (data (cursor_at header (flat_map stored_entry entries ++ rest)))
    with (header ++ flat_map stored_entry entries ++ rest).
  rewrite <- Hlayout.
  rewrite bind_on_src_read_count by (cbn [pos]; lia). cbn [data pos].
  unfold str_count_at in Hcount. rewrite Hcount.
  rewrite (bind_on_src (seek_cur 5)). unfold seek_cur at 1.
  unfold for_range. rewrite Hentries. cbn [data pos advance].
  rewrite table_cursor.
  unfold bind at 1. rewrite import_loop by assumption.
  destruct (rewritten_entries current_file_map 0 entries) as [bs|e];
    [|reflexivity].
  rewrite (bind_on_src read_all). unfold read_all at 1.
  rewrite remaining_cursor_at, on_snd_run. unfold write. cbn [snd fst].
  now rewrite <- !app_assoc.
Qed.

Lemma dump_run (rel_path : string) :
  dump rel_path buf = Ok (dumped_rows rel_path 0 entries).
Proof using All.
  destruct (parse_header_located buf off Hlocate) as [Hparse Hoff].
  unfold dump, dump_file.
  rewrite (bind_on_src parse_header), Hparse.
  rewrite (bind_on_src (seek off)). unfold seek at 1. cbn [data pos].
  rewrite bind_on_src_read_count by (cbn [pos]; lia). cbn [data pos].
  unfold str_count_at in Hcount. rewrite Hcount.
  rewrite (bind_on_src (seek_cur 5)). unfold seek_cur at 1.
  unfold for_range. rewrite Hentries. cbn [data pos advance].
  rewrite table_cursor.
  now rewrite dump_loop by assumption.
Qed.

End WholeFile.

Lemma id_dumped_rows (rel_path : string) (es : list (list byte)) (i : Z) :
  map id (dumped_rows rel_path i es) = seqZ i (Z.of_nat (length es)).
Proof.
  revert i. induction es as [|c es IH]; intros i.
  - reflexivity.
  - cbn [dumped_rows map id length]. rewrite IH.
    rewrite Nat2Z.inj_succ, (seqZ_cons i) by lia.
    now rewrite Z.pred_succ, <- Z.add_1_r.
Qed.

(** The loop looks the map up at the indices of the entries only. *)
Lemma rewritten_entries_ext (m m' : gmap Z text) (es : list (list byte)) :
  forall i,
  (forall j, i <= j < i + Z.of_nat (length es) -> m !! j = m' !! j) ->
  rewritten_entries m i es = rewritten_entries m' i es.
Proof.
  induction es as [|c es IH]; intros i Hm; [reflexivity|].
  cbn [rewritten_entries]. unfold text_to_write.
  rewrite (Hm i) by (cbn [length]; lia).
  rewrite (IH (i + 1)); [reflexivity|].
  intros j Hj. apply Hm. cbn [length]. lia.
Qed.

Lemma entry_text_terminated (b : list byte) :
  entry_text (b ++ [x00]) = utf8_decode b.
Proof.
  unfold entry_text, ends_with_nul. rewrite last_snoc.
  change (byte_val x00 =? 0) with true. cbv iota.
  now rewrite removelast_last.
Qed.

Lemma rewritten_entries_identity (m : gmap Z text) (es : list (list byte)) :
  all_empty m -> Forall terminated_utf8 es -> Forall fits_length_field es ->
  forall i, rewritten_entries m i es = Ok (flat_map stored_entry es).
Proof.
  intros Hm Hes Hfit. induction Hes as [|c es Hc Hes IH]; intros i.
  - reflexivity.
  - inversion Hfit as [|? ? Hfc Hfes]; subst.
    destruct Hc as (b & -> & t & Ht & Henc).
    destruct (utf8_roundtrip t Ht) as (b' & Henc' & Hdec).
    rewrite Henc in Henc'. injection Henc' as <-.
    cbn [rewritten_entries flat_map]. unfold text_to_write.
    replace (truthy (m !! i)) with false
      by (destruct (Hm i) as [-> | ->]; reflexivity).
    rewrite entry_text_terminated, Hdec. unfold written_entry.
    unfold fits_length_field in Hfc. rewrite length_app in Hfc.
    cbn [length] in Hfc.
    rewrite (write_string_entry_run t b [] Henc) by lia.
    rewrite (IH Hfes). do 2 f_equal. unfold stored_entry.
    rewrite length_app. cbn [length app].
    replace (Z.of_nat (length b + 1)) with (Z.of_nat (length b) + 1) by lia.
    reflexivity.
Qed.

(** * The claims *)

(** C1. For every buffer [parse_header] yields exactly what the formula of
    section 4.1 yields: it returns the offset the formula gives (start at 9
    after ['VER'], at 13 after a length byte 9 followed by ['VER'] at offset
    4, at 0 otherwise; skip [unkCount * 4] for the two versioned shapes; then
    skip [initCodeCount * 8] and [codeCount * 8]), and it raises exactly
    where the formula has no value because a field lies outside the buffer.
    The offset depends only on the bytes before it: any buffer that agrees
    with [buf] on its first [off] bytes is located at [off] too. *)
Theorem parse_header_offset_formula (buf : list byte) :
  result_value (locate buf) = locate_formula buf /\
  (forall off buf',
      locate buf = Ok off ->
      take (Z.to_nat off) buf' = take (Z.to_nat off) buf ->
      locate buf' = Ok off).
Proof.
  split; [apply locate_refines|].
  intros off buf' H Hagree.
  pose proof (locate_refines buf) as Hf. rewrite H in Hf. simpl in Hf.
  symmetry in Hf.
  pose proof (locate_formula_agree buf buf' off Hf Hagree) as Hf'.
  pose proof (locate_refines buf') as Hr. rewrite Hf' in Hr.
  destruct (locate buf'); simpl in Hr; congruence.
Qed.

(** The three shapes, and a change behind the offset that changes nothing. *)
Lemma parse_header_offset_formula_witness :
  locate sample_file = Ok 8 /\
  locate sample_versioned = Ok 33 /\
  locate sample_length_prefixed = Ok 37 /\
  locate (sample_versioned ++ sample_tail) = Ok 33.
Proof.
  split; [reflexivity|]. split; [reflexivity|]. split; [reflexivity|].
  apply (proj2 (parse_header_offset_formula sample_versioned) 33);
    reflexivity.
Defined.

(** C8, the counterexample.  Neither magic matches the empty buffer nor a
    three-byte one, yet [parse_header] raises on both: [version[0]] is out of
    range on the first, the init-code count is short on the second. *)
Lemma locate_raises_on_short_buffers :
  classify [] = Unversioned /\ locate [] = Raise IndexError /\
  classify (bytes_of [1; 2; 3]) = Unversioned /\
  locate (bytes_of [1; 2; 3]) = Raise struct_error.
Proof. repeat split. Qed.

(** C8, as amended.  A buffer that matches neither magic and holds the two
    count fields of the unversioned layout is read from offset 0, and the
    offset after both tables is returned: nothing is raised. *)
Theorem unversioned_fallback (buf : list byte) (init_code_count code_count : Z) :
  classify buf = Unversioned ->
  le32_at buf 0 = Some init_code_count ->
  le32_at buf (4 + init_code_count * 8) = Some code_count ->
  locate buf = Ok (8 + init_code_count * 8 + code_count * 8).
Proof.
  intros Hc Hic Hcc.
  pose proof (locate_refines buf) as Hr.
  unfold locate_formula, skip_table in Hr. rewrite Hc in Hr.
  rewrite Hic in Hr. change (0 + 4 + init_code_count * 8)
    with (4 + init_code_count * 8) in Hr.
  rewrite Hcc in Hr.
  destruct (locate buf) as [off|e]; [|discriminate].
  injection Hr as ->. f_equal. lia.
Qed.

Lemma unversioned_fallback_witness : locate sample_file = Ok 8.
Proof.
  apply (unversioned_fallback sample_file 0 0); reflexivity.
Defined.

(** C3. [read_string_entry] at a cursor: with nothing left it returns [None]
    and stays; a length field of 0 gives the empty string; a length [n > 0]
    takes the next [n] bytes (or what is left of them) as the content, and
    decodes it with U+FFFD for what is not UTF-8, all but the last byte when
    that byte is 0x00 and all of it otherwise.  [utf8_decode] is a total
    function, so decoding raises nothing; what it yields is always Unicode
    text, and on the encoding of a Unicode text it yields that text. *)
Theorem read_string_entry_cases (before : list byte) :
  read_string_entry (cursor_at before []) = Ok (None, cursor_at before []) /\
  (forall b0 b1 b2 b3 rest,
      byte2int [b0; b1; b2; b3] = Ok 0 ->
      read_string_entry (cursor_at before (b0 :: b1 :: b2 :: b3 :: rest)) =
      Ok (Some [], cursor_at (before ++ [b0; b1; b2; b3]) rest)) /\
  (forall b0 b1 b2 b3 rest n,
      byte2int [b0; b1; b2; b3] = Ok n -> 0 < n ->
      let content := take (Z.to_nat n) rest in
      read_string_entry (cursor_at before (b0 :: b1 :: b2 :: b3 :: rest)) =
      Ok (Some (utf8_decode (if ends_with_nul content
                             then removelast content else content)),
          cursor_at (before ++ [b0; b1; b2; b3] ++ content)
                    (drop (Z.to_nat n) rest))) /\
  (forall content, unicode_text (utf8_decode content)) /\
  (forall t b, unicode_text t -> utf8_encode t = Ok b -> utf8_decode b = t).
Proof.
  split; [|split; [|split; [|split]]].
  - apply read_string_entry_eof;
      [apply pos_cursor_at | apply remaining_cursor_at].
  - intros b0 b1 b2 b3 rest H.
    now rewrite (read_string_entry_at before b0 b1 b2 b3 rest 0 H).
  - intros b0 b1 b2 b3 rest n H Hn content.
    rewrite (read_string_entry_at before b0 b1 b2 b3 rest n H).
    replace (0 <? n) with true by (symmetry; apply Z.ltb_lt; lia).
    cbv zeta. fold content. unfold entry_text.
    now destruct (ends_with_nul content).
  - apply utf8_decode_scalar.
  - intros t b Ht Hb. destruct (utf8_roundtrip t Ht) as (b' & Hb' & Hd).
    rewrite Hb in Hb'. now injection Hb' as <-.
Qed.

(** ["Hello"] with its terminator, then an invalid byte without one. *)
Lemma read_string_entry_cases_witness :
  read_string_entry
    (cursor_at [] (bytes_of [6; 0; 0; 0; 72; 101; 108; 108; 111; 0; 7])) =
  Ok (Some [72; 101; 108; 108; 111],
      cursor_at (bytes_of [6; 0; 0; 0; 72; 101; 108; 108; 111; 0])
                (bytes_of [7])) /\
  read_string_entry (cursor_at [] (bytes_of [2; 0; 0; 0; 65; 255])) =
  Ok (Some [65; REPLACEMENT],
      cursor_at (bytes_of [2; 0; 0; 0; 65; 255]) []).
Proof.
  split.
  - apply (proj1 (proj2 (proj2 (read_string_entry_cases [])))
             x06 x00 x00 x00
             (bytes_of [72; 101; 108; 108; 111; 0; 7]) 6);
      [reflexivity | lia].
  - apply (proj1 (proj2 (proj2 (read_string_entry_cases [])))
             x02 x00 x00 x00 (bytes_of [65; 255]) 2);
      [reflexivity | lia].
Defined.

(** C4. [write_string_entry] on a text appends the 4-byte little-endian
    field holding [len(b) + 1], then [b], then one 0x00 byte, [b] being the
    UTF-8 encoding of the text.  The field is never zero and the terminator
    is always there, for the empty text too.  (Unicode text always has an
    encoding; the field must be able to hold [len(b) + 1].) *)
Theorem write_string_entry_layout (t : text) (out : wfile) :
  unicode_text t ->
  exists b,
    utf8_encode t = Ok b /\
    (Z.of_nat (length b) + 1 <= 0xFFFFFFFF ->
     write_string_entry (Some t) out =
     Ok (tt, out ++ le32 (Z.of_nat (length b) + 1) ++ b ++ [x00]) /\
     byte2int (le32 (Z.of_nat (length b) + 1)) = Ok (Z.of_nat (length b) + 1)
     /\ 0 < Z.of_nat (length b) + 1).
Proof.
  intros Ht. destruct (utf8_roundtrip t Ht) as (b & Henc & _).
  exists b. split; [exact Henc|]. intros Hfit. split; [|split].
  - now apply write_string_entry_run.
  - apply byte2int_le32. lia.
  - lia.
Qed.

(** The empty text: a field of 1 and the terminator. *)
Lemma write_string_entry_layout_witness :
  write_string_entry (Some []) [] = Ok (tt, bytes_of [1; 0; 0; 0; 0]).
Proof.
  destruct (write_string_entry_layout [] [] ltac:(constructor))
    as (b & Henc & H).
  injection Henc as <-.
  destruct (H ltac:(simpl; lia)) as [Hw _]. exact Hw.
Defined.

(** C5. A non-empty text without U+0000, written by [write_string_entry] and
    read back by [read_string_entry] from where it was written, is the same
    text; the cursor ends right after the entry. *)
Theorem read_back_written_entry (t : text) (b out rest : list byte) :
  t <> [] -> ~ In 0 t -> unicode_text t ->
  utf8_encode t = Ok b -> Z.of_nat (length b) + 1 <= 0xFFFFFFFF ->
  exists w,
    write_string_entry (Some t) out = Ok (tt, out ++ w) /\
    read_string_entry (cursor_at out (w ++ rest)) =
    Ok (Some t, cursor_at (out ++ w) rest).
Proof.
  intros _ _ Ht Henc Hfit.
  destruct (utf8_roundtrip t Ht) as (b' & Henc' & Hdec).
  rewrite Henc in Henc'. injection Henc' as <-.
  exists (stored_entry (b ++ [x00])). split.
  - rewrite (write_string_entry_run t b out Henc Hfit).
    unfold stored_entry. rewrite length_app. cbn [length].
    replace (Z.of_nat (length b + 1)) with (Z.of_nat (length b) + 1) by lia.
    reflexivity.
  - rewrite read_stored_entry
      by (rewrite length_app; cbn [length]; lia).
    now rewrite entry_text_terminated, Hdec.
Qed.

(** U+4E2D U+6587 and an ASCII letter, three and one bytes each. *)
Lemma read_back_written_entry_witness :
  exists w,
    write_string_entry (Some [0x4E2D; 0x6587; 65]) [] = Ok (tt, [] ++ w) /\
    read_string_entry (cursor_at [] (w ++ [xff])) =
    Ok (Some [0x4E2D; 0x6587; 65], cursor_at ([] ++ w) [xff]).
Proof.
  apply (read_back_written_entry [0x4E2D; 0x6587; 65]
           (bytes_of [0xE4; 0xB8; 0xAD; 0xE6; 0x96; 0x87; 65]) [] [xff]).
  - discriminate.
  - simpl. intros [H|[H|[H|[]]]]; discriminate.
  - repeat constructor.
  - reflexivity.
  - simpl. lia.
Defined.

(** C6. An entry stored with a length field of 0 reads as the empty string.
    Writing the empty string gives a field of 1 and a terminator, five bytes
    instead of four, which read as the empty string again. *)
Theorem empty_entry_asymmetry (before out rest : list byte) :
  byte2int (le32 0) = Ok 0 /\
  read_string_entry (cursor_at before (le32 0 ++ rest)) =
  Ok (Some [], cursor_at (before ++ le32 0) rest) /\
  write_string_entry (Some []) out = Ok (tt, out ++ le32 1 ++ [x00]) /\
  read_string_entry (cursor_at out ((le32 1 ++ [x00]) ++ rest)) =
  Ok (Some [], cursor_at (out ++ le32 1 ++ [x00]) rest) /\
  byte2int (le32 1) = Ok 1 /\
  le32 1 ++ [x00] <> le32 0.
Proof.
  split; [reflexivity|]. split; [|split; [|split; [|split]]].
  - exact (read_string_entry_at before x00 x00 x00 x00 rest 0 eq_refl).
  - exact (write_string_entry_run [] [] out eq_refl ltac:(simpl; lia)).
  - apply (read_stored_entry out [x00] rest). simpl. lia.
  - reflexivity.
  - discriminate.
Qed.

(** C10. A positive length field followed by fewer content bytes than it
    announces: [read_string_entry] neither returns [None] nor raises; it
    decodes the bytes that are there, without a final 0x00 if there is one,
    and leaves the cursor at the end.  With no content byte at all the
    result is the empty string. *)
Theorem read_string_entry_short_content (before : list byte)
  (b0 b1 b2 b3 : byte) (rest : list byte) (n : Z) :
  byte2int [b0; b1; b2; b3] = Ok n -> 0 < n -> Z.of_nat (length rest) < n ->
  read_string_entry (cursor_at before (b0 :: b1 :: b2 :: b3 :: rest)) =
  Ok (Some (utf8_decode (if ends_with_nul rest
                         then removelast rest else rest)),
      cursor_at (before ++ [b0; b1; b2; b3] ++ rest) [])
  /\ (rest = [] ->
      read_string_entry (cursor_at before [b0; b1; b2; b3]) =
      Ok (Some [], cursor_at (before ++ [b0; b1; b2; b3]) [])).
Proof.
  intros H Hn Hshort.
  assert (E : read_string_entry
                (cursor_at before (b0 :: b1 :: b2 :: b3 :: rest)) =
              Ok (Some (utf8_decode (if ends_with_nul rest
                                     then removelast rest else rest)),
                  cursor_at (before ++ [b0; b1; b2; b3] ++ rest) [])).
  { rewrite (read_string_entry_at before b0 b1 b2 b3 rest n H).
    replace (0 <? n) with true by (symmetry; apply Z.ltb_lt; lia).
    cbv zeta. rewrite take_ge, drop_ge by lia. unfold entry_text.
    now destruct (ends_with_nul rest). }
  split; [exact E|]. intros ->. rewrite E. now rewrite app_nil_r.
Qed.

(** A field of 6 with two bytes behind it, and a field of 6 with none. *)
Lemma read_string_entry_short_content_witness :
  read_string_entry (cursor_at [] (bytes_of [6; 0; 0; 0; 72; 105])) =
  Ok (Some [72; 105], cursor_at (bytes_of [6; 0; 0; 0; 72; 105]) []) /\
  read_string_entry (cursor_at [] (bytes_of [6; 0; 0; 0])) =
  Ok (Some [], cursor_at (bytes_of [6; 0; 0; 0]) []).
Proof.
  split.
  - apply (read_string_entry_short_content [] x06 x00 x00 x00
             (bytes_of [72; 105]) 6); [reflexivity | lia | simpl; lia].
  - apply (read_string_entry_short_content [] x06 x00 x00 x00 [] 6);
      [reflexivity | lia | simpl; lia | reflexivity].
Defined.

(** C7, at the failing input.  The table of [truncated_file] announces one
    entry to process and holds none.  [read_string_entry] returns [None]
    there and the dump loop passes over it, but the import loop hands that
    [None] to [write_string_entry] and stops on [AttributeError].  When one to
    three bytes of a length field are left, [read_string_entry] itself
    raises. *)
Theorem truncated_table_import_raises :
  locate truncated_file = Ok 8 /\
  str_count_at truncated_file 8 = Some 2 /\
  read_string_entry (cursor_at truncated_file []) =
  Ok (None, cursor_at truncated_file []) /\
  dump "scene.binu8" truncated_file = Ok [] /\
  repack ∅ truncated_file = Raise AttributeError /\
  read_string_entry (cursor_at truncated_file [x06; x00]) =
  Raise struct_error /\
  dump "scene.binu8" (truncated_file ++ [x06; x00]) = Raise struct_error.
Proof. repeat split. Qed.

(** C9. In a file whose count field holds [str_count], followed by five
    opaque bytes and then by at least [str_count - 1] whole entries, both
    loops handle exactly the entries 0 to [str_count - 2]: the dump yields one
    row for each, the import writes each anew and copies everything behind
    them as it is, the entry [str_count - 1] included, whatever the map holds
    for that index. *)
Theorem loops_stop_before_last_entry (rel_path : string)
  (current_file_map : gmap Z text) (buf header rest : list byte)
  (entries : list (list byte)) (off str_count : Z) :
  locate buf = Ok off ->
  buf = header ++ flat_map stored_entry entries ++ rest ->
  Z.of_nat (length header) = off + 9 ->
  str_count_at buf off = Some str_count ->
  Z.to_nat (str_count - 1) = length entries ->
  Forall fits_length_field entries ->
  (exists rows,
      dump rel_path buf = Ok rows /\
      map id rows = seqZ 0 (str_count - 1) /\
      map original rows = map (fun c => sanitize (entry_text c)) entries) /\
  repack current_file_map buf =
  match rewritten_entries current_file_map 0 entries with
  | Ok bs => Ok (header ++ bs ++ rest)
  | Raise e => Raise e
  end /\
  (forall t, repack (<[str_count - 1 := t]> current_file_map) buf =
             repack current_file_map buf).
Proof.
  intros Hloc Hbuf Hpre Hcnt Hn Hfit. split; [|split].
  - exists (dumped_rows rel_path 0 entries). split; [|split].
    + now apply (dump_run buf header rest entries off str_count).
    + rewrite id_dumped_rows.
      destruct (Z.le_gt_cases str_count 1) as [Hle|Hgt].
      * replace (length entries) with 0%nat by lia.
        now rewrite !seqZ_nil by lia.
      * f_equal. lia.
    + clear. generalize 0. induction entries as [|c es IH]; intros i.
      * reflexivity.
      * cbn [dumped_rows map original]. now rewrite IH.
  - now apply (repack_run buf header rest entries off str_count).
  - intros t.
    rewrite !(repack_run buf header rest entries off str_count)
      by assumption.
    rewrite (rewritten_entries_ext (<[str_count - 1 := t]> current_file_map)
               current_file_map entries 0); [reflexivity|].
    intros j Hj. apply lookup_insert_ne. lia.
Qed.

(** [sample_file]: a count of 3, two entries handled; a translation for index
    2 leaves the output as it is. *)
Lemma loops_stop_before_last_entry_witness :
  (exists rows,
      dump "scene.binu8" sample_file = Ok rows /\
      map id rows = seqZ 0 (3 - 1) /\
      map original rows =
      map (fun c => sanitize (entry_text c)) sample_entries) /\
  repack ∅ sample_file =
  match rewritten_entries ∅ 0 sample_entries with
  | Ok bs => Ok (sample_header ++ bs ++ sample_tail)
  | Raise e => Raise e
  end /\
  (forall t, repack (<[3 - 1 := t]> ∅) sample_file = repack ∅ sample_file).
Proof.
  apply (loops_stop_before_last_entry "scene.binu8" ∅ sample_file
           sample_header sample_tail sample_entries 8 3).
  - reflexivity.
  - reflexivity.
  - reflexivity.
  - reflexivity.
  - reflexivity.
  - repeat constructor; unfold fits_length_field; simpl; lia.
Defined.

(** C2. A file whose entries all have a positive length, end in 0x00 and
    hold valid UTF-8 before it, repacked with a map that has nothing or the
    empty string at every index, comes out byte for byte as it went in. *)
Theorem repack_identity (current_file_map : gmap Z text)
  (buf header rest : list byte) (entries : list (list byte))
  (off str_count : Z) :
  locate buf = Ok off ->
  buf = header ++ flat_map stored_entry entries ++ rest ->
  Z.of_nat (length header) = off + 9 ->
  str_count_at buf off = Some str_count ->
  Z.to_nat (str_count - 1) = length entries ->
  Forall fits_length_field entries ->
  Forall terminated_utf8 entries ->
  all_empty current_file_map ->
  repack current_file_map buf = Ok buf.
Proof.
  intros Hloc Hbuf Hpre Hcnt Hn Hfit Hes Hm.
  rewrite (repack_run buf header rest entries off str_count) by assumption.
  rewrite (rewritten_entries_identity current_file_map entries Hm Hes Hfit).
  now rewrite <- Hbuf.
Qed.

Lemma repack_identity_witness : repack ∅ sample_file = Ok sample_file.
Proof.
  apply (repack_identity ∅ sample_file sample_header sample_tail
           sample_entries 8 3).
  - reflexivity.
  - reflexivity.
  - reflexivity.
  - reflexivity.
  - reflexivity.
  - repeat constructor; unfold fits_length_field; simpl; lia.
  - constructor; [|constructor; [|constructor]].
    + exists (bytes_of [72; 101; 108; 108; 111]). split; [reflexivity|].
      exists [72; 101; 108; 108; 111]. split; [repeat constructor|reflexivity].
    + exists (bytes_of [87; 111; 114; 108; 100]). split; [reflexivity|].
      exists [87; 111; 114; 108; 100]. split; [repeat constructor|reflexivity].
  - intros i. left. apply lookup_empty.
Defined.

(** * Further properties *)

(** ** byte2int *)

(** X1. [byte2int] and [struct.pack('<L', _)] are inverse to each other:
    [byte2int] returns [n] on exactly the four bytes that packing [n] gives.
    [byte2int] raises [struct.error] on every input that is not four bytes
    long, and on no other; packing raises outside [0 .. 2^32 - 1] only. *)
Theorem byte2int_inverts_pack (bs : list byte) (n : Z) :
  (byte2int bs = Ok n <-> pack_L n = Ok bs) /\
  (byte2int bs = Raise struct_error <-> length bs <> 4%nat) /\
  (pack_L n = Raise struct_error <-> (n < 0 \/ 0xFFFFFFFF < n)).
Proof.
  split; [|split].
  - split.
    + intros H. destruct (byte2int_inv bs n H) as (b0 & b1 & b2 & b3 & -> & Hn).
      apply le32_byte2int in H. unfold pack_L.
      replace (0 <=? n) with true by (symmetry; apply Z.leb_le; lia).
      replace (n <=? 0xFFFFFFFF) with true by (symmetry; apply Z.leb_le; lia).
      cbn [andb]. now rewrite H.
    + unfold pack_L.
      destruct (Z.leb_spec 0 n); [|discriminate].
      destruct (Z.leb_spec n 0xFFFFFFFF); [|discriminate].
      cbn [andb]. intros [= <-]. apply byte2int_le32. lia.
  - destruct bs as [|b0 [|b1 [|b2 [|b3 [|b4 bs]]]]]; cbn [byte2int length];
      split; intros H; try reflexivity; try discriminate; try lia.
  - unfold pack_L.
    destruct (Z.leb_spec 0 n); destruct (Z.leb_spec n 0xFFFFFFFF);
      cbn [andb]; split; intros Hx; try reflexivity; try discriminate; lia.
Qed.

(** ** An offset at or behind the end of the file *)




(** ** A string table that ends too early *)

Lemma for_from_add {St} (a b : nat) (i : Z) (body : Z -> M St unit)
  (s : St) :
  for_from (a + b) i body s =
  match for_from a i body s with
  | Ok (_, s') => for_from b (i + Z.of_nat a) body s'
  | Raise e => Raise e
  end.
Proof.
  revert i s. induction a as [|a IH]; intros i s.
  - cbn [Nat.add for_from]. unfold ret. now rewrite Z.add_0_r.
  - cbn [Nat.add for_from]. unfold bind.
    destruct (body i s) as [[[] s1]|e]; [|reflexivity].
    rewrite IH. replace (i + 1 + Z.of_nat a) with (i + Z.of_nat (S a)) by lia.
    reflexivity.
Qed.

(** At the end of the file the dump loop does nothing, however long it
    goes on. *)
Lemma dump_loop_eof (rel_path : string) (pre : list byte) (k : nat) :
  forall (i : Z) (rows : list row),
  for_from k i
    (fun i =>
       text <- on_src read_string_entry ;;
       match text with
       | Some t =>
           on_snd (append_row {| file := rel_path; id := i;
                                 original := sanitize t;
                                 translation := [] |})
       | None => ret tt
       end)
    (cursor_at pre [], rows) = Ok (tt, (cursor_at pre [], rows)).
Proof.
  induction k as [|k IH]; intros i rows; [reflexivity|].
  cbn [for_from]. unfold bind at 1. rewrite bind_on_src.
  rewrite read_string_entry_eof
    by (apply pos_cursor_at || apply remaining_cursor_at).
  unfold ret at 1. apply IH.
Qed.

Section TruncatedFile.

Variables (buf header rest : list byte) (entries : list (list byte)).
Variables (off str_count : Z) (more : nat).

Hypothesis Hlocate : locate buf = Ok off.
Hypothesis Hlayout : buf = header ++ flat_map stored_entry entries ++ rest.
Hypothesis Hheader : Z.of_nat (length header) = off + 9.
Hypothesis Hcount : str_count_at buf off = Some str_count.
Hypothesis Hmore : Z.to_nat (str_count - 1) = (length entries + S more)%nat.
Hypothesis Hfits : Forall fits_length_field entries.

(** The dump loop has taken the entries that are there and stands before
    [rest] with at least one more round to go. *)
Lemma dump_reaches (rel_path : string) :
  dump rel_path buf =
  match
    for_from (S more) (Z.of_nat (length entries))
      (fun i =>
         text <- on_src read_string_entry ;;
         match text with
         | Some t =>
             on_snd (append_row {| file := rel_path; id := i;
                                   original := sanitize t;
                                   translation := [] |})
         | None => ret tt
         end)
      (cursor_at (header ++ flat_map stored_entry entries) rest,
       dumped_rows rel_path 0 entries)
  with
  | Ok (_, (_, rows)) => Ok rows
  | Raise e => Raise e
  end.
Proof using All.
  destruct (parse_header_located buf off Hlocate) as [Hparse Hoff].
  unfold dump, dump_file.
  rewrite (bind_on_src parse_header), Hparse.
  rewrite (bind_on_src (seek off)). unfold seek at 1. cbn [data pos].
  rewrite bind_on_src_read_count by (cbn [pos]; lia). cbn [data pos].
  unfold str_count_at in Hcount. rewrite Hcount.
  rewrite (bind_on_src (seek_cur 5)). unfold seek_cur at 1.
  unfold for_range. rewrite Hmore. cbn [data pos advance].
  rewrite (table_cursor buf header rest entries off Hlayout Hheader).
  rewrite for_from_add, dump_loop by assumption.
  reflexivity.
Qed.

(** The same for the import loop, when the entries that are there could be
    written anew. *)
Lemma repack_reaches (current_file_map : gmap Z text) (bs : list byte) :
  rewritten_entries current_file_map 0 entries = Ok bs ->
  repack current_file_map buf =
  match
    (_ <- for_from (S more) (Z.of_nat (length entries))
            (fun i =>
               original_text <- on_src read_string_entry ;;
               let trans_text := current_file_map !! i in
               let text_to_write :=
                 if truthy trans_text then trans_text else original_text in
               on_snd (write_string_entry text_to_write)) ;;
     rest <- on_src read_all ;;
     on_snd (write rest))
      (cursor_at (header ++ flat_map stored_entry entries) rest,
       header ++ bs)
  with
  | Ok (_, (_, out)) => Ok out
  | Raise e => Raise e
  end.
Proof using All.
  intros Hbs.
  destruct (parse_header_located buf off Hlocate) as [Hparse Hoff].
  unfold repack, import_file.
  rewrite (bind_on_src parse_header), Hparse.
  rewrite (bind_on_src (seek 0)). unfold seek at 1. cbn [data pos].
  rewrite (bind_on_src (read (off + 9))),
    (read_header buf header rest entries off Hlayout Hheader).
  unfold bind at 1. rewrite on_snd_run. unfold write at 1.
  rewrite (bind_on_src (seek off)). unfold seek at 1. cbn [data pos].
  change (data (cursor_at header (flat_map stored_entry entries ++ rest)))
    with (header ++ flat_map stored_entry entries ++ rest).
  rewrite <- Hlayout.
  rewrite bind_on_src_read_count by (cbn [pos]; lia). cbn [data pos].
  unfold str_count_at in Hcount. rewrite Hcount.
  rewrite (bind_on_src (seek_cur 5)). unfold seek_cur at 1.
  unfold for_range. rewrite Hmore. cbn [data pos advance].
  rewrite (table_cursor buf header rest entries off Hlayout Hheader).
  unfold bind at 1. rewrite for_from_add, import_loop by assumption.
  rewrite Hbs. unfold bind at 3. cbn [app]. reflexivity.
Qed.

Lemma repack_stops_early (current_file_map : gmap Z text) (e : exn) :
  rewritten_entries current_file_map 0 entries = Raise e ->
  repack current_file_map buf = Raise e.
Proof using All.
  intros Hbs.
  destruct (parse_header_located buf off Hlocate) as [Hparse Hoff].
  unfold repack, import_file.
  rewrite (bind_on_src parse_header), Hparse.
  rewrite (bind_on_src (seek 0)). unfold seek at 1. cbn [data pos].
  rewrite (bind_on_src (read (off + 9))),
    (read_header buf header rest entries off Hlayout Hheader).
  unfold bind at 1. rewrite on_snd_run. unfold write at 1.
  rewrite (bind_on_src (seek off)). unfold seek at 1. cbn [data pos].
  change (data (cursor_at header (flat_map stored_entry entries ++ rest)))
    with (header ++ flat_map stored_entry entries ++ rest).
  rewrite <- Hlayout.
  rewrite bind_on_src_read_count by (cbn [pos]; lia). cbn [data pos].
  unfold str_count_at in Hcount. rewrite Hcount.
  rewrite (bind_on_src (seek_cur 5)). unfold seek_cur at 1.
  unfold for_range. rewrite Hmore. cbn [data pos advance].
  rewrite (table_cursor buf header rest entries off Hlayout Hheader).
  unfold bind at 1. rewrite for_from_add, import_loop by assumption.
  now rewrite Hbs.
Qed.

End TruncatedFile.

(** X3. A string table that ends at the end of an entry, with fewer entries
    than the count announces: [dump_script] does not fail on it.  It yields
    the rows of the entries that are there and passes over the missing
    ones. *)
Theorem dump_of_short_table (rel_path : string) (buf header : list byte)
  (entries : list (list byte)) (off str_count : Z) :
  locate buf = Ok off ->
  buf = header ++ flat_map stored_entry entries ->
  Z.of_nat (length header) = off + 9 ->
  str_count_at buf off = Some str_count ->
  (length entries < Z.to_nat (str_count - 1))%nat ->
  Forall fits_length_field entries ->
  dump rel_path buf = Ok (dumped_rows rel_path 0 entries).
Proof.
  intros Hloc Hbuf Hhdr Hcnt Hlt Hfit.
  rewrite <- (app_nil_r (flat_map stored_entry entries)) in Hbuf.
  rewrite (dump_reaches buf header [] entries off str_count
             (Z.to_nat (str_count - 1) - length entries - 1)
             Hloc Hbuf Hhdr Hcnt ltac:(lia) Hfit).
  now rewrite dump_loop_eof.
Qed.

(** A count of 3, and ["Hello"] alone behind the header. *)
Lemma dump_of_short_table_witness :
  dump "scene.binu8"
    (sample_header ++
     flat_map stored_entry [bytes_of [72; 101; 108; 108; 111; 0]]) =
  Ok [{| file := "scene.binu8"; id := 0;
         original := [72; 101; 108; 108; 111]; translation := [] |}].
Proof.
  apply (dump_of_short_table "scene.binu8" _ sample_header
           [bytes_of [72; 101; 108; 108; 111; 0]] 8 3).
  - reflexivity.
  - reflexivity.
  - reflexivity.
  - reflexivity.
  - simpl. lia.
  - repeat constructor. unfold fits_length_field. simpl. lia.
Defined.

(** X4. On the same kind of file [import_script] fails: once the entries
    that are there have been written anew, [read_string_entry] returns
    [None] for the first missing index, and unless the map holds a non-empty
    translation for that index the [None] reaches [write_string_entry], which
    raises [AttributeError]. *)
Theorem import_of_short_table (current_file_map : gmap Z text)
  (buf header : list byte) (entries : list (list byte)) (off str_count : Z) :
  locate buf = Ok off ->
  buf = header ++ flat_map stored_entry entries ->
  Z.of_nat (length header) = off + 9 ->
  str_count_at buf off = Some str_count ->
  (length entries < Z.to_nat (str_count - 1))%nat ->
  Forall fits_length_field entries ->
  truthy (current_file_map !! Z.of_nat (length entries)) = false ->
  repack current_file_map buf =
  match rewritten_entries current_file_map 0 entries with
  | Ok _ => Raise AttributeError
  | Raise e => Raise e
  end.
Proof.
  intros Hloc Hbuf Hhdr Hcnt Hlt Hfit Hnone.
  rewrite <- (app_nil_r (flat_map stored_entry entries)) in Hbuf.
  destruct (rewritten_entries current_file_map 0 entries) as [bs|e] eqn:E.
  - rewrite (repack_reaches buf header [] entries off str_count
               (Z.to_nat (str_count - 1) - length entries - 1)
               Hloc Hbuf Hhdr Hcnt ltac:(lia) Hfit current_file_map bs E).
    cbn [for_from]. rewrite !bind_assoc.
    rewrite (bind_on_src read_string_entry).
    rewrite read_string_entry_eof
      by (apply pos_cursor_at || apply remaining_cursor_at).
    cbv zeta. rewrite Hnone. reflexivity.
  - exact (repack_stops_early buf header [] entries off str_count
             (Z.to_nat (str_count - 1) - length entries - 1)
             Hloc Hbuf Hhdr Hcnt ltac:(lia) Hfit current_file_map e E).
Qed.

Lemma import_of_short_table_witness :
  repack ∅
    (sample_header ++
     flat_map stored_entry [bytes_of [72; 101; 108; 108; 111; 0]]) =
  Raise AttributeError.
Proof.
  assert (Hfit : Forall fits_length_field
                   [bytes_of [72; 101; 108; 108; 111; 0]])
    by (repeat constructor; unfold fits_length_field; simpl; lia).
  exact (import_of_short_table ∅
           (sample_header ++
            flat_map stored_entry [bytes_of [72; 101; 108; 108; 111; 0]])
           sample_header [bytes_of [72; 101; 108; 108; 111; 0]] 8 3
           eq_refl eq_refl eq_refl eq_refl ltac:(simpl; lia) Hfit eq_refl).
Defined.

(** X5. A string table cut off inside a length field, one to three bytes
    of it being left: [read_string_entry] raises [struct.error] there, not
    the end-of-table [None], and so do [dump_script] and, unless an earlier
    entry already failed, [import_script]. *)
Theorem table_cut_inside_length_field (rel_path : string)
  (current_file_map : gmap Z text) (buf header partial : list byte)
  (entries : list (list byte)) (off str_count : Z) :
  locate buf = Ok off ->
  buf = header ++ flat_map stored_entry entries ++ partial ->
  Z.of_nat (length header) = off + 9 ->
  str_count_at buf off = Some str_count ->
  (length entries < Z.to_nat (str_count - 1))%nat ->
  Forall fits_length_field entries ->
  (0 < length partial < 4)%nat ->
  read_string_entry
    (cursor_at (header ++ flat_map stored_entry entries) partial) =
  Raise struct_error /\
  dump rel_path buf = Raise struct_error /\
  repack current_file_map buf =
  match rewritten_entries current_file_map 0 entries with
  | Ok _ => Raise struct_error
  | Raise e => Raise e
  end.
Proof.
  intros Hloc Hbuf Hhdr Hcnt Hlt Hfit Hpart.
  assert (Hread : read_string_entry
                    (cursor_at (header ++ flat_map stored_entry entries)
                               partial) = Raise struct_error).
  { apply read_string_entry_partial; [apply pos_cursor_at|].
    now rewrite remaining_cursor_at. }
  split; [exact Hread|]. split.
  - rewrite (dump_reaches buf header partial entries off str_count
               (Z.to_nat (str_count - 1) - length entries - 1)
               Hloc Hbuf Hhdr Hcnt ltac:(lia) Hfit).
    cbn [for_from]. rewrite bind_assoc.
    rewrite (bind_on_src read_string_entry). now rewrite Hread.
  - destruct (rewritten_entries current_file_map 0 entries) as [bs|e] eqn:E.
    + rewrite (repack_reaches buf header partial entries off str_count
                 (Z.to_nat (str_count - 1) - length entries - 1)
                 Hloc Hbuf Hhdr Hcnt ltac:(lia) Hfit current_file_map bs E).
      cbn [for_from]. rewrite !bind_assoc.
      rewrite (bind_on_src read_string_entry). now rewrite Hread.
    + exact (repack_stops_early buf header partial entries off str_count
               (Z.to_nat (str_count - 1) - length entries - 1)
               Hloc Hbuf Hhdr Hcnt ltac:(lia) Hfit current_file_map e E).
Qed.

(** ["Hello"], then two bytes of the next length field. *)
Lemma table_cut_inside_length_field_witness :
  read_string_entry
    (cursor_at (sample_header ++
                flat_map stored_entry [bytes_of [72; 101; 108; 108; 111; 0]])
               [x06; x00]) = Raise struct_error /\
  dump "scene.binu8"
    (sample_header ++
     flat_map stored_entry [bytes_of [72; 101; 108; 108; 111; 0]]
     ++ [x06; x00]) = Raise struct_error /\
  repack ∅
    (sample_header ++
     flat_map stored_entry [bytes_of [72; 101; 108; 108; 111; 0]]
     ++ [x06; x00]) =
  match rewritten_entries ∅ 0 [bytes_of [72; 101; 108; 108; 111; 0]] with
  | Ok _ => Raise struct_error
  | Raise e => Raise e
  end.
Proof.
  apply (table_cut_inside_length_field "scene.binu8" ∅ _ sample_header
           [x06; x00] [bytes_of [72; 101; 108; 108; 111; 0]] 8 3).
  - reflexivity.
  - reflexivity.
  - reflexivity.
  - reflexivity.
  - simpl. lia.
  - repeat constructor. unfold fits_length_field. simpl. lia.
  - simpl. lia.
Defined.

(** ** What an import leaves in the file *)

Lemma text_to_write_chosen (m : gmap Z text) (i : Z) (c : list byte) :
  text_to_write m i (Some (entry_text c)) = Some (chosen_text m i c).
Proof.
  unfold text_to_write, chosen_text.
  destruct (m !! i) as [[|ch t]|]; reflexivity.
Qed.

Lemma chosen_text_unicode (m : gmap Z text) (i : Z) (c : list byte) :
  unicode_map m -> unicode_text (chosen_text m i c).
Proof.
  intros Hm. unfold chosen_text.
  destruct (m !! i) as [[|ch t]|] eqn:E.
  - unfold entry_text. destruct (ends_with_nul c); apply utf8_decode_scalar.
  - exact (Hm i _ E).
  - unfold entry_text. destruct (ends_with_nul c); apply utf8_decode_scalar.
Qed.

(** One entry written: when it succeeds, what was written is the stored form
    of the encoded text with its terminator, and reads back as the text. *)
Lemma written_entry_unicode (t : text) :
  unicode_text t ->
  (fits_length_field (utf8_bytes t ++ [x00]) ->
   written_entry (Some t) = Ok (stored_entry (utf8_bytes t ++ [x00]))) /\
  (forall x, written_entry (Some t) = Ok x ->
             fits_length_field (utf8_bytes t ++ [x00])) /\
  terminated_utf8 (utf8_bytes t ++ [x00]) /\
  entry_text (utf8_bytes t ++ [x00]) = t.
Proof.
  intros Ht. destruct (utf8_roundtrip t Ht) as (b & Henc & Hdec).
  unfold utf8_bytes. rewrite Henc.
  unfold fits_length_field. rewrite length_app. cbn [length].
  split; [|split; [|split]].
  - intros Hfit. unfold written_entry.
    rewrite (write_string_entry_run t b [] Henc) by lia.
    unfold stored_entry. rewrite length_app. cbn [length app].
    now replace (Z.of_nat (length b + 1)) with (Z.of_nat (length b) + 1) by lia.
  - intros x. unfold written_entry, write_string_entry, bind, lift, pack_L.
    rewrite Henc.
    destruct (Z.leb_spec 0 (Z.of_nat (length b) + 1));
      destruct (Z.leb_spec (Z.of_nat (length b) + 1) 0xFFFFFFFF);
      cbn [andb]; try discriminate. intros _. lia.
  - exists b. split; [reflexivity|]. now exists t.
  - now rewrite entry_text_terminated.
Qed.

Lemma rewritten_entries_imported (m : gmap Z text) (es : list (list byte)) :
  unicode_map m ->
  forall i,
  (Forall fits_length_field (imported_entries m i es) ->
   rewritten_entries m i es =
   Ok (flat_map stored_entry (imported_entries m i es))) /\
  (forall bs, rewritten_entries m i es = Ok bs ->
              Forall fits_length_field (imported_entries m i es)).
Proof.
  intros Hm. unfold imported_entries.
  induction es as [|c es IH]; intros i.
  - split; [reflexivity|]. intros _ _. constructor.
  - cbn [rewritten_entries chosen_texts map flat_map].
    rewrite text_to_write_chosen.
    destruct (written_entry_unicode (chosen_text m i c)
                (chosen_text_unicode m i c Hm)) as (Hw & Hinv & _ & _).
    destruct (IH (i + 1)) as [IH1 IH2]. split.
    + intros Hfit. inversion Hfit as [|? ? Hc Hes]; subst.
      now rewrite (Hw Hc), (IH1 Hes).
    + intros bs.
      destruct (written_entry (Some (chosen_text m i c))) as [x|e] eqn:E;
        [|discriminate].
      destruct (rewritten_entries m (i + 1) es) as [r|e] eqn:E';
        [|discriminate].
      intros _. constructor; [exact (Hinv x eq_refl)|exact (IH2 r eq_refl)].
Qed.

Lemma imported_entries_facts (m : gmap Z text) (es : list (list byte)) :
  unicode_map m ->
  forall i,
  Forall terminated_utf8 (imported_entries m i es) /\
  map entry_text (imported_entries m i es) = chosen_texts m i es /\
  length (imported_entries m i es) = length es.
Proof.
  intros Hm. unfold imported_entries.
  induction es as [|c es IH]; intros i.
  - repeat split. constructor.
  - cbn [chosen_texts map length].
    destruct (written_entry_unicode (chosen_text m i c)
                (chosen_text_unicode m i c Hm)) as (_ & _ & Ht & Hr).
    destruct (IH (i + 1)) as (IH1 & IH2 & IH3).
    split; [|split].
    + now constructor.
    + now rewrite Hr, IH2.
    + now rewrite IH3.
Qed.

(** A file that keeps the header keeps the offset and the string count. *)
Lemma same_header_same_table (buf header tail tail' : list byte)
  (off : Z) :
  locate buf = Ok off ->
  buf = header ++ tail ->
  Z.of_nat (length header) = off + 9 ->
  locate (header ++ tail') = Ok off /\
  str_count_at (header ++ tail') off = str_count_at buf off.
Proof.
  intros Hloc Hbuf Hhdr.
  destruct (parse_header_located buf off Hloc) as [_ Hoff].
  assert (Hagree : take (length header) (header ++ tail') =
                   take (length header) buf)
    by (rewrite Hbuf, !take_app_length; reflexivity).
  split.
  - pose proof (locate_refines buf) as Hf. rewrite Hloc in Hf.
    simpl in Hf. symmetry in Hf.
    assert (Hagree' : take (Z.to_nat off) (header ++ tail') =
                      take (Z.to_nat off) buf).
    { rewrite Hbuf, !take_app_le by lia. reflexivity. }
    pose proof (locate_formula_agree buf _ off Hf Hagree') as Hf'.
    pose proof (locate_refines (header ++ tail')) as Hr. rewrite Hf' in Hr.
    destruct (locate (header ++ tail')); simpl in Hr; congruence.
  - unfold str_count_at, le32_at.
    now rewrite (take_drop_agree _ _ (length header) (Z.to_nat off) 4 Hagree)
      by lia.
Qed.

Lemma imported_lookup (m : gmap Z text) (es : list (list byte)) :
  forall i (k : nat),
  imported_entries m i es !! k =
  (fun c => utf8_bytes (chosen_text m (i + Z.of_nat k) c) ++ [x00])
    <$> es !! k.
Proof.
  unfold imported_entries.
  induction es as [|c es IH]; intros i k; [reflexivity|].
  destruct k as [|k]; cbn [chosen_texts map].
  - simpl. now rewrite Z.add_0_r.
  - replace (i + Z.of_nat (S k)) with (i + 1 + Z.of_nat k) by lia.
    exact (IH (i + 1) k).
Qed.

Lemma utf8_bytes_entry_text (c : list byte) :
  terminated_utf8 c -> utf8_bytes (entry_text c) ++ [x00] = c.
Proof.
  intros (b & -> & t & Ht & Henc).
  destruct (utf8_roundtrip t Ht) as (b' & Henc' & Hdec).
  rewrite Henc in Henc'. injection Henc' as <-.
  rewrite entry_text_terminated, Hdec. unfold utf8_bytes. now rewrite Henc.
Qed.

Lemma original_dumped_rows (rel_path : string) (es : list (list byte)) :
  forall i,
  map original (dumped_rows rel_path i es) =
  map (fun c => sanitize (entry_text c)) es.
Proof.
  induction es as [|c es IH]; intros i; [reflexivity|].
  cbn [dumped_rows map original]. now rewrite IH.
Qed.

Lemma sample_map_unicode : unicode_map sample_map.
Proof.
  intros i t H. unfold sample_map in H.
  apply lookup_insert_Some in H as [[_ <-]|[_ H]].
  - repeat constructor.
  - rewrite lookup_empty in H. discriminate.
Defined.

Lemma sample_entries_fit : Forall fits_length_field sample_entries.
Proof.
  repeat constructor; unfold fits_length_field; simpl; lia.
Defined.

(** X6. What [import_script] writes for a file: the header as it was, then
    every entry anew as the UTF-8 bytes of its text with a terminator (the
    length field counting both), then the rest of the file as it was.  The
    text is the translation where the map has a non-empty one; an entry
    without one that was terminated, valid UTF-8 is stored exactly as
    before. *)
Theorem import_substitutes (current_file_map : gmap Z text)
  (buf header rest : list byte) (entries : list (list byte))
  (off str_count : Z) :
  locate buf = Ok off ->
  buf = header ++ flat_map stored_entry entries ++ rest ->
  Z.of_nat (length header) = off + 9 ->
  str_count_at buf off = Some str_count ->
  Z.to_nat (str_count - 1) = length entries ->
  Forall fits_length_field entries ->
  unicode_map current_file_map ->
  Forall fits_length_field (imported_entries current_file_map 0 entries) ->
  repack current_file_map buf =
  Ok (header
      ++ flat_map stored_entry (imported_entries current_file_map 0 entries)
      ++ rest) /\
  (forall (k : nat) c,
      entries !! k = Some c ->
      imported_entries current_file_map 0 entries !! k =
      Some (utf8_bytes (chosen_text current_file_map (Z.of_nat k) c)
            ++ [x00]) /\
      (terminated_utf8 c ->
       truthy (current_file_map !! Z.of_nat k) = false ->
       imported_entries current_file_map 0 entries !! k = Some c)).
Proof.
  intros Hloc Hbuf Hhdr Hcnt Hn Hfit Hm Hfit'.
  split.
  - rewrite (repack_run buf header rest entries off str_count)
      by assumption.
    destruct (rewritten_entries_imported current_file_map entries Hm 0)
      as [H1 _].
    now rewrite (H1 Hfit').
  - intros k c Hk. rewrite imported_lookup, Hk. cbn [fmap option_fmap option_map].
    rewrite Z.add_0_l. split; [reflexivity|].
    intros Hc Hno. f_equal. unfold chosen_text.
    destruct (current_file_map !! Z.of_nat k) as [[|ch t]|];
      try discriminate; now apply utf8_bytes_entry_text.
Qed.

(** [sample_file] with ["Bonjour"] for entry 0: only that entry changes. *)
Lemma import_substitutes_witness :
  repack sample_map sample_file =
  Ok (sample_header
      ++ flat_map stored_entry
           [bytes_of [66; 111; 110; 106; 111; 117; 114; 0];
            bytes_of [87; 111; 114; 108; 100; 0]]
      ++ sample_tail).
Proof.
  assert (Hfit : Forall fits_length_field
                   (imported_entries sample_map 0 sample_entries))
    by (unfold imported_entries, sample_entries; cbn [chosen_texts map];
        repeat apply Forall_cons_2; try apply Forall_nil_2;
        apply Z.leb_le; reflexivity).
  exact (proj1 (import_substitutes sample_map sample_file sample_header
                  sample_tail sample_entries 8 3 eq_refl eq_refl eq_refl
                  eq_refl eq_refl sample_entries_fit sample_map_unicode
                  Hfit)).
Defined.

(** X7. Dumping the file an import has written shows what was imported:
    there is one row for each entry, numbered from 0, and its text is the
    translation where the map had a non-empty one and the text of the
    original entry elsewhere. *)
Theorem dump_after_import (rel_path : string)
  (current_file_map : gmap Z text) (buf header rest out : list byte)
  (entries : list (list byte)) (off str_count : Z) :
  locate buf = Ok off ->
  buf = header ++ flat_map stored_entry entries ++ rest ->
  Z.of_nat (length header) = off + 9 ->
  str_count_at buf off = Some str_count ->
  Z.to_nat (str_count - 1) = length entries ->
  Forall fits_length_field entries ->
  unicode_map current_file_map ->
  repack current_file_map buf = Ok out ->
  exists rows,
    dump rel_path out = Ok rows /\
    map id rows = seqZ 0 (Z.of_nat (length entries)) /\
    map original rows =
    map sanitize (chosen_texts current_file_map 0 entries).
Proof.
  intros Hloc Hbuf Hhdr Hcnt Hn Hfit Hm Hout.
  rewrite (repack_run buf header rest entries off str_count) in Hout
    by assumption.
  destruct (rewritten_entries current_file_map 0 entries) as [bs|e] eqn:E;
    [|discriminate].
  injection Hout as <-.
  destruct (rewritten_entries_imported current_file_map entries Hm 0)
    as [H1 H2].
  pose proof (H2 bs E) as Hfit'. rewrite (H1 Hfit') in E. injection E as <-.
  destruct (imported_entries_facts current_file_map entries Hm 0)
    as (Hterm & Htexts & Hlen).
  destruct (same_header_same_table buf header
              (flat_map stored_entry entries ++ rest)
              (flat_map stored_entry
                 (imported_entries current_file_map 0 entries) ++ rest)
              off Hloc Hbuf Hhdr) as [Hloc' Hcnt'].
  rewrite Hcnt in Hcnt'.
  exists (dumped_rows rel_path 0 (imported_entries current_file_map 0 entries)).
  split; [|split].
  - apply (dump_run _ header rest _ off str_count); try assumption;
      try reflexivity. now rewrite Hlen.
  - now rewrite id_dumped_rows, Hlen.
  - rewrite original_dumped_rows, <- Htexts, map_map. reflexivity.
Qed.

Lemma dump_after_import_witness :
  exists rows,
    dump "scene.binu8"
      (sample_header
       ++ flat_map stored_entry
            [bytes_of [66; 111; 110; 106; 111; 117; 114; 0];
             bytes_of [87; 111; 114; 108; 100; 0]]
       ++ sample_tail) = Ok rows /\
    map id rows = seqZ 0 (Z.of_nat (length sample_entries)) /\
    map original rows = map sanitize (chosen_texts sample_map 0 sample_entries).
Proof.
  assert (Hout : repack sample_map sample_file =
                 Ok (sample_header
                     ++ flat_map stored_entry
                          [bytes_of [66; 111; 110; 106; 111; 117; 114; 0];
                           bytes_of [87; 111; 114; 108; 100; 0]]
                     ++ sample_tail)) by reflexivity.
  exact (dump_after_import "scene.binu8" sample_map sample_file sample_header
           sample_tail
           (sample_header
            ++ flat_map stored_entry
                 [bytes_of [66; 111; 110; 106; 111; 117; 114; 0];
                  bytes_of [87; 111; 114; 108; 100; 0]]
            ++ sample_tail)
           sample_entries 8 3 eq_refl eq_refl eq_refl eq_refl
           eq_refl sample_entries_fit sample_map_unicode Hout).
Defined.

(** X8. The file an import has written is a fixed point of an import without
    translations: importing it again with a map that has nothing, or the
    empty string, at every index gives the same bytes.  This holds whatever
    the entries of the first file were (unterminated, of length 0, not
    UTF-8): the first import brings them into the form it writes. *)
Theorem import_fixed_point (current_file_map no_change : gmap Z text)
  (buf header rest out : list byte) (entries : list (list byte))
  (off str_count : Z) :
  locate buf = Ok off ->
  buf = header ++ flat_map stored_entry entries ++ rest ->
  Z.of_nat (length header) = off + 9 ->
  str_count_at buf off = Some str_count ->
  Z.to_nat (str_count - 1) = length entries ->
  Forall fits_length_field entries ->
  unicode_map current_file_map ->
  all_empty no_change ->
  repack current_file_map buf = Ok out ->
  repack no_change out = Ok out.
Proof.
  intros Hloc Hbuf Hhdr Hcnt Hn Hfit Hm Hempty Hout.
  rewrite (repack_run buf header rest entries off str_count) in Hout
    by assumption.
  destruct (rewritten_entries current_file_map 0 entries) as [bs|e] eqn:E;
    [|discriminate].
  injection Hout as <-.
  destruct (rewritten_entries_imported current_file_map entries Hm 0)
    as [H1 H2].
  pose proof (H2 bs E) as Hfit'. rewrite (H1 Hfit') in E. injection E as <-.
  destruct (imported_entries_facts current_file_map entries Hm 0)
    as (Hterm & Htexts & Hlen).
  destruct (same_header_same_table buf header
              (flat_map stored_entry entries ++ rest)
              (flat_map stored_entry
                 (imported_entries current_file_map 0 entries) ++ rest)
              off Hloc Hbuf Hhdr) as [Hloc' Hcnt'].
  rewrite Hcnt in Hcnt'.
  rewrite (repack_run _ header rest
             (imported_entries current_file_map 0 entries) off str_count)
    by (try assumption; try reflexivity; now rewrite Hlen).
  now rewrite (rewritten_entries_identity no_change _ Hempty Hterm Hfit').
Qed.

(** An entry of length 0 and an unterminated one that is not UTF-8. *)
Lemma import_fixed_point_witness :
  repack ∅
    (sample_header
     ++ flat_map stored_entry [bytes_of [0]; bytes_of [239; 191; 189; 0]]
     ++ sample_tail) =
  Ok (sample_header
      ++ flat_map stored_entry [bytes_of [0]; bytes_of [239; 191; 189; 0]]
      ++ sample_tail).
Proof.
  assert (Hfit : Forall fits_length_field [[]; bytes_of [255]])
    by (repeat constructor; unfold fits_length_field; simpl; lia).
  assert (Hm : unicode_map ∅)
    by (intros i t H; rewrite lookup_empty in H; discriminate).
  assert (He : all_empty ∅) by (intros i; left; apply lookup_empty).
  assert (Hout : repack ∅
                   (sample_header
                    ++ flat_map stored_entry [[]; bytes_of [255]]
                    ++ sample_tail) =
                 Ok (sample_header
                     ++ flat_map stored_entry
                          [bytes_of [0]; bytes_of [239; 191; 189; 0]]
                     ++ sample_tail)) by reflexivity.
  exact (import_fixed_point ∅ ∅
           (sample_header ++ flat_map stored_entry [[]; bytes_of [255]]
            ++ sample_tail)
           sample_header sample_tail
           (sample_header
            ++ flat_map stored_entry
                 [bytes_of [0]; bytes_of [239; 191; 189; 0]]
            ++ sample_tail)
           [[]; bytes_of [255]] 8 3
           eq_refl eq_refl eq_refl eq_refl eq_refl Hfit Hm He Hout).
Defined.

(** ** Escaping line ends for the CSV file *)

Lemma replace_char_cons (c : Z) (by_ : text) (a : Z) (t : text) :
  replace_char c by_ (a :: t) =
  (if a =? c then by_ else [a]) ++ replace_char c by_ t.
Proof. reflexivity. Qed.

Lemma replace_char_app (c : Z) (by_ : text) (t1 t2 : text) :
  replace_char c by_ (t1 ++ t2) =
  replace_char c by_ t1 ++ replace_char c by_ t2.
Proof. unfold replace_char. apply flat_map_app. Qed.

(** [sanitize], one character at a time. *)
Lemma sanitize_cons (a : Z) (t : text) :
  sanitize (a :: t) =
  (if a =? 10 then [92; 110] else if a =? 13 then [92; 114] else [a])
  ++ sanitize t.
Proof.
  unfold sanitize. rewrite replace_char_cons, replace_char_app.
  f_equal. destruct (Z.eqb_spec a 10) as [->|Ha]; [reflexivity|].
  cbn [replace_char flat_map app]. now destruct (a =? 13).
Qed.

Lemma replace_pair_cons_ne (p0 p1 : Z) (by_ : text) (a : Z) (s : text) :
  ~ (a = p0 /\ head s = Some p1) ->
  replace_pair p0 p1 by_ (a :: s) = a :: replace_pair p0 p1 by_ s.
Proof.
  intros Hne. destruct s as [|b s]; [reflexivity|].
  cbn [replace_pair].
  destruct (Z.eqb_spec a p0) as [->|]; [|reflexivity].
  destruct (Z.eqb_spec b p1) as [->|]; [|reflexivity].
  exfalso. apply Hne. now split.
Qed.

Lemma replace_pair_hit (p0 p1 : Z) (by_ : text) (s : text) :
  replace_pair p0 p1 by_ (p0 :: p1 :: s) = by_ ++ replace_pair p0 p1 by_ s.
Proof.
  cbn [replace_pair]. now rewrite !Z.eqb_refl.
Qed.

Lemma has_pair_cons (p0 p1 a : Z) (t : text) :
  has_pair p0 p1 (a :: t) = false ->
  ~ (a = p0 /\ head t = Some p1) /\ has_pair p0 p1 t = false.
Proof.
  destruct t as [|b t]; cbn [has_pair head].
  - intros _. split; [intros [_ H]; discriminate|reflexivity].
  - intros H. apply orb_false_iff in H as [H1 H2]. split; [|exact H2].
    intros [-> [= ->]]. now rewrite !Z.eqb_refl in H1.
Qed.

Lemma head_sanitize (t : text) :
  head (sanitize t) =
  (fun b => if b =? 10 then 92 else if b =? 13 then 92 else b) <$> head t.
Proof.
  destruct t as [|b t]; [reflexivity|]. rewrite sanitize_cons.
  cbn [head fmap option_fmap option_map].
  destruct (b =? 10); [reflexivity|]. now destruct (b =? 13).
Qed.

(** Undoing the first escape leaves the second one as it is. *)
Lemma unescape_lf (t : text) :
  has_pair 92 110 t = false ->
  replace_pair 92 110 [10] (sanitize t) = replace_char 13 [92; 114] t.
Proof.
  induction t as [|a t IH]; intros Hp; [reflexivity|].
  apply has_pair_cons in Hp as [Hhead Hp]. specialize (IH Hp).
  rewrite sanitize_cons, replace_char_cons.
  destruct (Z.eqb_spec a 10) as [->|H10].
  - cbn [app]. rewrite replace_pair_hit, IH. reflexivity.
  - destruct (Z.eqb_spec a 13) as [->|H13].
    + cbn [app].
      rewrite replace_pair_cons_ne
        by (cbn [head]; intros [_ [= ?]]; lia).
      rewrite replace_pair_cons_ne by (intros [? _]; lia).
      now rewrite IH.
    + cbn [app]. rewrite replace_pair_cons_ne; [now rewrite IH|].
      rewrite head_sanitize. intros [-> Hh]. apply Hhead. split; [reflexivity|].
      destruct t as [|b t]; [discriminate|].
      cbn [head fmap option_fmap option_map] in Hh |- *.
      destruct (Z.eqb_spec b 10); [discriminate|].
      destruct (Z.eqb_spec b 13); [discriminate|]. exact Hh.
Qed.

Lemma unescape_cr (t : text) :
  has_pair 92 114 t = false ->
  replace_pair 92 114 [13] (replace_char 13 [92; 114] t) = t.
Proof.
  induction t as [|a t IH]; intros Hp; [reflexivity|].
  apply has_pair_cons in Hp as [Hhead Hp]. specialize (IH Hp).
  rewrite replace_char_cons.
  destruct (Z.eqb_spec a 13) as [->|H13].
  - cbn [app]. rewrite replace_pair_hit, IH. reflexivity.
  - cbn [app]. rewrite replace_pair_cons_ne; [now rewrite IH|].
    intros [-> Hh]. apply Hhead. split; [reflexivity|].
    destruct t as [|b t]; [discriminate|].
    rewrite replace_char_cons in Hh.
    destruct (Z.eqb_spec b 13); [discriminate|]. exact Hh.
Qed.

(** X9. The text [dump_script] puts into the [original] column holds no
    line feed and no carriage return: each is replaced by a backslash and a
    letter. *)
Theorem sanitize_has_no_line_end (t : text) :
  Forall (fun ch => ch <> 10 /\ ch <> 13) (sanitize t).
Proof.
  induction t as [|a t IH]; [constructor|].
  rewrite sanitize_cons. apply Forall_app. split; [|exact IH].
  destruct (Z.eqb_spec a 10); [repeat constructor; lia|].
  destruct (Z.eqb_spec a 13); repeat constructor; lia.
Qed.

(** X10. What [import_script] does to a translation undoes what
    [dump_script] did to an original: a text that holds no backslash
    directly followed by [n] or by [r] comes back unchanged, line ends
    included. *)
Theorem unescape_sanitize (t : text) :
  has_pair 92 110 t = false -> has_pair 92 114 t = false ->
  unescape (sanitize t) = t.
Proof.
  intros Hn Hr. unfold unescape.
  now rewrite (unescape_lf t Hn), (unescape_cr t Hr).
Qed.

(** A backslash before a line feed, and a carriage return before an [n]. *)
Lemma unescape_sanitize_witness :
  unescape (sanitize [65; 92; 10; 13; 110; 66]) = [65; 92; 10; 13; 110; 66].
Proof.
  apply (unescape_sanitize [65; 92; 10; 13; 110; 66]); reflexivity.
Defined.

(** ** The translation map *)

Lemma file_map_add_translation (tm : gmap string (gmap Z text)) (r : row)
  (f : string) (i : Z) :
  file_map (add_translation tm r) f !! i =
  if decide (file r = f /\ id r = i) then Some (unescape (translation r))
  else file_map tm f !! i.
Proof.
  unfold add_translation, file_map. cbv zeta.
  destruct (decide (file r = f)) as [<-|Hf].
  - rewrite lookup_alter_eq.
    destruct (tm !! file r) as [inner|] eqn:E.
    + rewrite E. cbn [fmap option_fmap option_map default].
      unfold Datatypes.id.
      destruct (decide (id r = i)) as [<-|Hi].
      * rewrite lookup_insert_eq. now rewrite decide_True.
      * rewrite lookup_insert_ne by assumption.
        rewrite decide_False by (intros [_ ?]; contradiction). reflexivity.
    + rewrite lookup_insert_eq. cbn [fmap option_fmap option_map default].
      unfold Datatypes.id.
      destruct (decide (id r = i)) as [<-|Hi].
      * rewrite lookup_insert_eq. now rewrite decide_True.
      * rewrite lookup_insert_ne by assumption.
        rewrite decide_False by (intros [_ ?]; contradiction). reflexivity.
  - rewrite decide_False by (intros [? _]; contradiction).
    rewrite lookup_alter_ne by assumption.
    destruct (tm !! file r) as [inner|]; [reflexivity|].
    now rewrite lookup_insert_ne by assumption.
Qed.

Lemma translation_of_rows (rows : list row) (f : string) (i : Z) :
  file_map (foldl add_translation ∅ rows) f !! i =
  (fun r => unescape (translation r))
    <$> last (filter (fun r => file r = f /\ id r = i) rows).
Proof.
  induction rows as [|r rows IH] using rev_ind.
  - cbn [foldl]. unfold file_map. rewrite lookup_empty. reflexivity.
  - rewrite foldl_snoc, file_map_add_translation, filter_app.
    destruct (decide (file r = f /\ id r = i)) as [Hr|Hr].
    + rewrite (filter_cons_True _ r []) by exact Hr.
      rewrite filter_nil, last_snoc. reflexivity.
    + rewrite (filter_cons_False _ r []) by exact Hr.
      rewrite filter_nil, app_nil_r. exact IH.
Qed.

(** X11. The translation [import_script] uses for entry [i] of file [f] is
    the unescaped [translation] cell of the last CSV row that names [f] and
    [i]: a later row replaces an earlier one.  Without such a row, and
    without a CSV file, there is none and the original text is kept. *)
Theorem translation_is_last_row (rows : list row) (f : string) (i : Z) :
  file_map (read_translations (Some rows)) f !! i =
  (fun r => unescape (translation r))
    <$> last (filter (fun r => file r = f /\ id r = i) rows) /\
  file_map (read_translations None) f !! i = None.
Proof.
  split.
  - apply translation_of_rows.
  - unfold read_translations, file_map. now rewrite lookup_empty.
Qed.

(** ** The rows of a dump *)

(** What a call of [read_string_entry] can come to. *)
Lemma read_string_entry_outcome (f : rfile) :
  0 <= pos f ->
  match read_string_entry f with
  | Ok (None, f') => remaining f = [] /\ f' = f
  | Ok (Some _, f') => 0 <= pos f'
  | Raise _ => True
  end.
Proof.
  intros Hp.
  destruct (remaining f) as [|b0 [|b1 [|b2 [|b3 rest]]]] eqn:E.
  - rewrite read_string_entry_eof by assumption. now split.
  - rewrite read_string_entry_partial; [exact I|assumption|].
    rewrite E. simpl. lia.
  - rewrite read_string_entry_partial; [exact I|assumption|].
    rewrite E. simpl. lia.
  - rewrite read_string_entry_partial; [exact I|assumption|].
    rewrite E. simpl. lia.
  - rewrite (read_string_entry_run f b0 b1 b2 b3 rest _ Hp E eq_refl).
    destruct (0 <? _); cbn [pos advance]; lia.
Qed.

Lemma dump_loop_at_end (rel_path : string) (f : rfile) (k : nat) :
  0 <= pos f -> remaining f = [] ->
  forall (i : Z) (rows : list row),
  for_from k i
    (fun i =>
       text <- on_src read_string_entry ;;
       match text with
       | Some t =>
           on_snd (append_row {| file := rel_path; id := i;
                                 original := sanitize t;
                                 translation := [] |})
       | None => ret tt
       end)
    (f, rows) = Ok (tt, (f, rows)).
Proof.
  intros Hp Hend. induction k as [|k IH]; intros i rows; [reflexivity|].
  cbn [for_from]. rewrite bind_assoc, (bind_on_src read_string_entry).
  rewrite read_string_entry_eof by assumption.
  unfold bind, ret. apply IH.
Qed.

Lemma sanitize_clean (t : text) :
  Forall (fun ch => ch <> 10 /\ ch <> 13) (sanitize t).
Proof.
  induction t as [|a t IH]; [constructor|].
  rewrite sanitize_cons. apply Forall_app. split; [|exact IH].
  destruct (Z.eqb_spec a 10); [repeat constructor; lia|].
  destruct (Z.eqb_spec a 13); repeat constructor; lia.
Qed.

Lemma dump_loop_shape (rel_path : string) (k : nat) :
  forall (i : Z) (f f' : rfile) (rows rows' : list row) (u : unit),
  0 <= pos f ->
  for_from k i
    (fun i =>
       text <- on_src read_string_entry ;;
       match text with
       | Some t =>
           on_snd (append_row {| file := rel_path; id := i;
                                 original := sanitize t;
                                 translation := [] |})
       | None => ret tt
       end)
    (f, rows) = Ok (u, (f', rows')) ->
  exists new,
    rows' = rows ++ new /\
    map id new = seqZ i (Z.of_nat (length new)) /\
    Forall (dumped_row rel_path) new.
Proof.
  induction k as [|k IH]; intros i f f' rows rows' u Hp H.
  - cbn [for_from] in H. injection H as _ _ <-. exists [].
    rewrite app_nil_r. repeat split. constructor.
  - cbn [for_from] in H.
    rewrite bind_assoc, (bind_on_src read_string_entry) in H.
    pose proof (read_string_entry_outcome f Hp) as Hout.
    destruct (read_string_entry f) as [[[t|] f1]|e]; [| |discriminate].
    + cbv beta iota in H. unfold bind at 1 in H.
      rewrite on_snd_run in H. unfold append_row in H.
      apply IH in H as (new & -> & Hid & Hrows); [|exact Hout].
      exists ({| file := rel_path; id := i; original := sanitize t;
                 translation := [] |} :: new).
      split; [now rewrite <- app_assoc|]. split.
      * cbn [map id length]. rewrite Hid, Nat2Z.inj_succ.
        rewrite (seqZ_cons i) by lia.
        now rewrite Z.pred_succ, <- Z.add_1_r.
      * constructor; [|exact Hrows].
        repeat split. apply sanitize_clean.
    + destruct Hout as [Hend ->]. cbv beta iota in H.
      unfold bind at 1, ret at 1 in H.
      rewrite dump_loop_at_end in H by assumption.
      injection H as _ _ <-. exists []. rewrite app_nil_r.
      repeat split. constructor.
Qed.

Lemma dump_shape (rel_path : string) (buf : list byte) (rows : list row) :
  dump rel_path buf = Ok rows ->
  map id rows = seqZ 0 (Z.of_nat (length rows)) /\
  Forall (dumped_row rel_path) rows.
Proof.
  intros H. unfold dump in H.
  destruct (dump_file rel_path (open_rb buf, []))
    as [[u [f' rows']]|e] eqn:E; [|discriminate].
  injection H as <-. unfold dump_file in E.
  rewrite (bind_on_src parse_header) in E.
  destruct (parse_header (open_rb buf)) as [[off f1]|e] eqn:Hp;
    [|discriminate].
  assert (Hloc : locate buf = Ok off) by (unfold locate; now rewrite Hp).
  destruct (parse_header_located buf off Hloc) as [Hparse Hoff].
  rewrite Hparse in Hp. injection Hp as <-.
  rewrite (bind_on_src (seek off)) in E. unfold seek at 1 in E.
  cbn [data pos] in E.
  rewrite bind_on_src_read_count in E by (cbn [pos]; lia).
  cbn [data pos] in E.
  destruct (le32_at buf off) as [str_count|]; [|discriminate].
  rewrite (bind_on_src (seek_cur 5)) in E. unfold seek_cur at 1 in E.
  unfold for_range in E.
  apply dump_loop_shape in E as (new & -> & Hid & Hrows);
    [|cbn [pos advance]; lia].
  now split.
Qed.

(** X12. Whatever the file holds, the rows [dump_script] gets from it, if
    it gets any, are numbered 0, 1, 2, ... without a gap, carry the file's
    relative path, have an empty [translation] and no line feed or carriage
    return in [original]. *)
Theorem dump_rows_shape (rel_path : string) (buf : list byte)
  (rows : list row) :
  dump rel_path buf = Ok rows ->
  map id rows = seqZ 0 (Z.of_nat (length rows)) /\
  Forall (fun r => file r = rel_path /\ translation r = [] /\
                   Forall (fun ch => ch <> 10 /\ ch <> 13) (original r))
         rows.
Proof. apply dump_shape. Qed.

Lemma dump_rows_shape_witness :
  map id
    [{| file := "scene.binu8"; id := 0;
        original := [72; 101; 108; 108; 111]; translation := [] |};
     {| file := "scene.binu8"; id := 1;
        original := [87; 111; 114; 108; 100]; translation := [] |}] =
  seqZ 0 (Z.of_nat 2) /\
  Forall (fun r => file r = "scene.binu8"%string /\ translation r = [] /\
                   Forall (fun ch => ch <> 10 /\ ch <> 13) (original r))
    [{| file := "scene.binu8"; id := 0;
        original := [72; 101; 108; 108; 111]; translation := [] |};
     {| file := "scene.binu8"; id := 1;
        original := [87; 111; 114; 108; 100]; translation := [] |}].
Proof.
  exact (dump_rows_shape "scene.binu8" sample_file
           [{| file := "scene.binu8"; id := 0;
               original := [72; 101; 108; 108; 111]; translation := [] |};
            {| file := "scene.binu8"; id := 1;
               original := [87; 111; 114; 108; 100]; translation := [] |}]
           eq_refl).
Defined.

(** ** Many files *)

Lemma appends_rows_bind {A B} (m : M (rfile * list row) A)
  (k : A -> M (rfile * list row) B) :
  appends_rows m -> (forall a, appends_rows (k a)) -> appends_rows (bind m k).
Proof.
  intros Hm Hk f rows. unfold bind. rewrite (Hm f rows).
  destruct (m (f, [])) as [[a [f' new]]|e]; [|reflexivity].
  rewrite (Hk a f' (rows ++ new)), (Hk a f' new).
  destruct (k a (f', [])) as [[b [f'' new']]|e]; [|reflexivity].
  now rewrite app_assoc.
Qed.

Lemma appends_rows_on_src {A} (m : M rfile A) :
  appends_rows (on_src (S:=list row) m).
Proof.
  intros f rows. unfold on_src. cbn [fst snd].
  destruct (m f) as [[a f']|e]; [|reflexivity]. now rewrite app_nil_r.
Qed.

Lemma appends_rows_lift {A} (r : result A) :
  appends_rows (lift (S:=rfile * list row) r).
Proof.
  intros f rows. unfold lift. destruct r; [|reflexivity].
  now rewrite app_nil_r.
Qed.

Lemma appends_rows_for_from (body : Z -> M (rfile * list row) unit) :
  (forall i, appends_rows (body i)) ->
  forall k i, appends_rows (for_from k i body).
Proof.
  intros Hbody. induction k as [|k IH]; intros i.
  - intros f rows. cbn [for_from]. unfold ret. now rewrite app_nil_r.
  - cbn [for_from]. apply appends_rows_bind; [apply Hbody|].
    intros _. apply IH.
Qed.

Lemma appends_rows_dump_file (rel_path : string) :
  appends_rows (dump_file rel_path).
Proof.
  unfold dump_file.
  apply appends_rows_bind; [apply appends_rows_on_src|]. intros off.
  apply appends_rows_bind; [apply appends_rows_on_src|]. intros _.
  apply appends_rows_bind; [apply appends_rows_on_src|]. intros cnt.
  apply appends_rows_bind; [apply appends_rows_lift|]. intros str_count.
  apply appends_rows_bind; [apply appends_rows_on_src|]. intros _.
  apply appends_rows_for_from. intros i.
  apply appends_rows_bind; [apply appends_rows_on_src|]. intros [t|].
  - intros f rows. reflexivity.
  - intros f rows. unfold ret. now rewrite app_nil_r.
Qed.

(** [dump_script] takes the files one after the other. *)
Lemma dump_script_cons (rel_path : string) (buf : list byte)
  (files : list (string * list byte)) (rows : list row) :
  dump_script ((rel_path, buf) :: files) rows =
  match dump rel_path buf with
  | Ok new => dump_script files (rows ++ new)
  | Raise e => Raise e
  end.
Proof.
  cbn [dump_script]. unfold dump.
  rewrite (appends_rows_dump_file rel_path (open_rb buf) rows).
  now destruct (dump_file rel_path (open_rb buf, [])) as [[u [f new]]|e].
Qed.

Lemma dump_script_stops (files : list (string * list byte))
  (rel_path : string) (buf : list byte) (e : exn) :
  In (rel_path, buf) files -> dump rel_path buf = Raise e ->
  forall rows, exists e', dump_script files rows = Raise e'.
Proof.
  intros Hin Hbad. induction files as [|[p b] files IH]; [destruct Hin|].
  intros rows. rewrite dump_script_cons.
  destruct Hin as [[= -> ->]|Hin].
  - rewrite Hbad. now exists e.
  - destruct (dump p b) as [new|e0]; [apply (IH Hin)|now exists e0].
Qed.

Lemma import_script_stops (translation_map : gmap string (gmap Z text))
  (files : list (string * list byte)) (rel_path : string) (buf : list byte)
  (e : exn) :
  In (rel_path, buf) files ->
  repack (file_map translation_map rel_path) buf = Raise e ->
  exists e', import_script translation_map files = Raise e'.
Proof.
  intros Hin Hbad. induction files as [|[p b] files IH]; [destruct Hin|].
  cbn [import_script].
  destruct Hin as [[= -> ->]|Hin].
  - rewrite Hbad. now exists e.
  - destruct (repack (file_map translation_map p) b) as [out|e0];
      [|now exists e0].
    destruct (IH Hin) as [e' ->]. now exists e'.
Qed.

(** X13. Neither [dump_script] nor [import_script] sets a failing file
    aside: when one file among those found makes [dump_script]'s work on it
    raise, the whole dump raises and yields no rows, and likewise the import
    raises as a whole when one file cannot be imported. *)
Theorem one_failure_ends_the_run
  (translation_map : gmap string (gmap Z text))
  (files : list (string * list byte)) (rel_path : string) (buf : list byte)
  (e : exn) :
  In (rel_path, buf) files ->
  (dump rel_path buf = Raise e ->
   exists e', dump_script files [] = Raise e') /\
  (repack (file_map translation_map rel_path) buf = Raise e ->
   exists e', import_script translation_map files = Raise e').
Proof.
  intros Hin. split; intros Hbad.
  - exact (dump_script_stops files rel_path buf e Hin Hbad []).
  - exact (import_script_stops translation_map files rel_path buf e Hin Hbad).
Qed.

(** A good file first, then one whose table is cut off. *)
Lemma one_failure_ends_the_run_witness :
  (exists e',
      dump_script [("a.binu8"%string, sample_file);
                   ("b.binu8"%string, truncated_file ++ [x06])] [] = Raise e')
  /\
  (exists e',
      import_script ∅ [("a.binu8"%string, sample_file);
                       ("b.binu8"%string, truncated_file ++ [x06])] =
      Raise e').
Proof.
  destruct (one_failure_ends_the_run ∅
              [("a.binu8"%string, sample_file);
               ("b.binu8"%string, truncated_file ++ [x06])]
              "b.binu8" (truncated_file ++ [x06]) struct_error
              ltac:(right; left; reflexivity)) as [H1 H2].
  split; [exact (H1 eq_refl)|exact (H2 eq_refl)].
Defined.

(** ** Importing what was just dumped *)

Lemma dump_script_blank (files : list (string * list byte)) :
  forall rows0 rows,
  dump_script files rows0 = Ok rows ->
  Forall (fun r => translation r = []) rows0 ->
  Forall (fun r => translation r = []) rows.
Proof.
  induction files as [|[p b] files IH]; intros rows0 rows H H0.
  - cbn [dump_script] in H. now injection H as <-.
  - rewrite dump_script_cons in H.
    destruct (dump p b) as [new|e] eqn:E; [|discriminate].
    apply (IH _ _ H). apply Forall_app. split; [exact H0|].
    destruct (dump_shape p b new E) as [_ Hnew].
    eapply Forall_impl; [exact Hnew|]. intros r (_ & Hr & _). exact Hr.
Qed.

Lemma blank_rows_change_nothing (rows : list row) (f : string) :
  Forall (fun r => translation r = []) rows ->
  all_empty (file_map (read_translations (Some rows)) f).
Proof.
  intros Hblank i. unfold read_translations.
  rewrite translation_of_rows.
  destruct (last (filter (fun r => file r = f /\ id r = i) rows))
    as [r|] eqn:E; [|now left].
  right. cbn [fmap option_fmap option_map]. f_equal.
  apply last_Some_elem_of, list_elem_of_filter in E as [_ Hr].
  rewrite Forall_forall in Hblank.
  rewrite (Hblank r) by exact Hr. reflexivity.
Qed.

Lemma repack_container (m : gmap Z text) (buf : list byte) :
  container buf -> all_empty m -> repack m buf = Ok buf.
Proof.
  intros (header & entries & rest & off & str_count & Hloc & Hbuf & Hhdr
          & Hcnt & Hn & Hfit & Hterm) Hm.
  rewrite (repack_run buf header rest entries off str_count) by assumption.
  rewrite (rewritten_entries_identity m entries Hm Hterm Hfit).
  now rewrite <- Hbuf.
Qed.

(** X14. Dump and import undo each other when nobody fills in the CSV:
    with the rows that [dump_script] has collected, their [translation]
    cells all empty, [import_script] writes each container file back byte
    for byte. *)
Theorem import_of_untouched_dump (files : list (string * list byte))
  (rows : list row) :
  dump_script files [] = Ok rows ->
  Forall (fun pf => container (snd pf)) files ->
  import_script (read_translations (Some rows)) files = Ok files.
Proof.
  intros Hdump Hfiles.
  assert (Hblank : Forall (fun r => translation r = []) rows)
    by (apply (dump_script_blank files [] rows Hdump); constructor).
  clear Hdump. induction Hfiles as [|[p b] files Hb Hfiles IH];
    [reflexivity|].
  cbn [import_script]. cbn [snd] in Hb.
  rewrite (repack_container _ b Hb (blank_rows_change_nothing rows p Hblank)).
  now rewrite IH.
Qed.

Lemma sample_file_container : container sample_file.
Proof.
  exists sample_header, sample_entries, sample_tail, 8, 3.
  split; [reflexivity|]. split; [reflexivity|]. split; [reflexivity|].
  split; [reflexivity|]. split; [reflexivity|].
  split; [exact sample_entries_fit|].
  constructor; [|constructor; [|constructor]].
  - exists (bytes_of [72; 101; 108; 108; 111]). split; [reflexivity|].
    exists [72; 101; 108; 108; 111]. split; [repeat constructor|reflexivity].
  - exists (bytes_of [87; 111; 114; 108; 100]). split; [reflexivity|].
    exists [87; 111; 114; 108; 100]. split; [repeat constructor|reflexivity].
Defined.

Lemma import_of_untouched_dump_witness :
  import_script (read_translations (Some sample_rows))
    [("scene.binu8"%string, sample_file)] =
  Ok [("scene.binu8"%string, sample_file)].
Proof.
  apply (import_of_untouched_dump [("scene.binu8"%string, sample_file)]
           sample_rows).
  - reflexivity.
  - constructor; [exact sample_file_container|constructor].
Defined.

(** ** Escaping what was unescaped *)

(** The two escapes of [sanitize] can be done in either order. *)
Lemma sanitize_other_order (t : text) :
  sanitize t = replace_char 10 [92; 110] (replace_char 13 [92; 114] t).
Proof.
  induction t as [|a t IH]; [reflexivity|].
  rewrite sanitize_cons, IH, (replace_char_cons 13), replace_char_app.
  f_equal. destruct (Z.eqb_spec a 10) as [->|H10]; [reflexivity|].
  destruct (Z.eqb_spec a 13) as [->|H13]; [reflexivity|].
  cbn [replace_char flat_map app].
  now replace (a =? 10) with false by (symmetry; apply Z.eqb_neq; lia).
Qed.

(** Escaping [c] again after a text free of [c] had [p0 p1] replaced by
    [c]. *)
Lemma escape_unescaped (c p0 p1 : Z) (n : nat) :
  forall t, (length t <= n)%nat -> Forall (fun ch => ch <> c) t ->
  replace_char c [p0; p1] (replace_pair p0 p1 [c] t) = t.
Proof.
  induction n as [|n IH]; intros t Hlen Hfree.
  - destruct t; [reflexivity|simpl in Hlen; lia].
  - destruct t as [|a [|b rest]]; [reflexivity| |].
    + inversion Hfree as [|? ? Ha _]; subst. cbn [replace_pair].
      rewrite replace_char_cons.
      now replace (a =? c) with false by (symmetry; apply Z.eqb_neq; lia).
    + inversion Hfree as [|? ? Ha Hfree']; subst.
      inversion Hfree' as [|? ? Hb Hrest]; subst.
      cbn [length] in Hlen.
      destruct (Z.eqb_spec a p0) as [->|Hp0];
        [destruct (Z.eqb_spec b p1) as [->|Hp1]|].
      * rewrite replace_pair_hit. cbn [app].
        rewrite replace_char_cons, Z.eqb_refl. cbn [app].
        rewrite IH; [reflexivity|lia|exact Hrest].
      * rewrite replace_pair_cons_ne
          by (cbn [head]; intros [_ [= ?]]; contradiction).
        rewrite replace_char_cons.
        replace (p0 =? c) with false by (symmetry; apply Z.eqb_neq; lia).
        cbn [app]. rewrite IH; [reflexivity|cbn [length]; lia|exact Hfree'].
      * rewrite replace_pair_cons_ne by (intros [? _]; contradiction).
        rewrite replace_char_cons.
        replace (a =? c) with false by (symmetry; apply Z.eqb_neq; lia).
        cbn [app]. rewrite IH; [reflexivity|cbn [length]; lia|exact Hfree'].
Qed.

(** Replacing pairs brings in nothing but the replacement. *)
Lemma replace_pair_keeps (P : Z -> Prop) (p0 p1 : Z) (by_ : text) (n : nat) :
  Forall P by_ ->
  forall t, (length t <= n)%nat -> Forall P t ->
  Forall P (replace_pair p0 p1 by_ t).
Proof.
  intros Hby. induction n as [|n IH]; intros t Hlen Ht.
  - destruct t; [constructor|simpl in Hlen; lia].
  - destruct t as [|a [|b rest]]; [constructor|exact Ht|].
    inversion Ht as [|? ? Ha Ht']; subst.
    inversion Ht' as [|? ? Hb Hrest]; subst.
    cbn [length] in Hlen.
    destruct (Z.eqb_spec a p0) as [->|Hp0];
      [destruct (Z.eqb_spec b p1) as [->|Hp1]|].
    + rewrite replace_pair_hit. apply Forall_app. split; [exact Hby|].
      apply IH; [lia|exact Hrest].
    + rewrite replace_pair_cons_ne
        by (cbn [head]; intros [_ [= ?]]; contradiction).
      constructor; [exact Ha|]. apply IH; [cbn [length]; lia|exact Ht'].
    + rewrite replace_pair_cons_ne by (intros [? _]; contradiction).
      constructor; [exact Ha|]. apply IH; [cbn [length]; lia|exact Ht'].
Qed.

(** X15. What [dump_script] does to an original undoes what [import_script]
    did to a translation cell: a cell without a line feed or carriage
    return of its own comes back unchanged when it is unescaped and then
    escaped again. *)
Theorem sanitize_unescape (t : text) :
  Forall (fun ch => ch <> 10 /\ ch <> 13) t ->
  sanitize (unescape t) = t.
Proof.
  intros Hfree.
  assert (H10 : Forall (fun ch => ch <> 10) t)
    by (eapply Forall_impl; [exact Hfree|]; now intros ch [? _]).
  assert (H13 : Forall (fun ch => ch <> 13) t)
    by (eapply Forall_impl; [exact Hfree|]; now intros ch [_ ?]).
  rewrite sanitize_other_order. unfold unescape.
  rewrite (escape_unescaped 13 92 114 _ _ (le_n _)).
  - exact (escape_unescaped 10 92 110 _ t (le_n _) H10).
  - apply (replace_pair_keeps _ 92 110 [10] (length t));
      [repeat constructor; lia|lia|exact H13].
Qed.

(** A cell that spells a line feed, a carriage return and a backslash. *)
Lemma sanitize_unescape_witness :
  sanitize (unescape [65; 92; 110; 92; 114; 92; 66]) =
  [65; 92; 110; 92; 114; 92; 66].
Proof.
  apply (sanitize_unescape [65; 92; 110; 92; 114; 92; 66]).
  repeat constructor; lia.
Defined.
